(** * ent: delete builders, mutator chain, predicates and the privacy layer

    A shallow embedding of

      - entc/integration/customid/ent/intsid_delete.go
      - entc/integration/customid/ent/predicate/predicate.go
      - entc/integration/edgeschema/ent/tweettag/tweettag.go

    together with a model of the privacy layer documented in
    doc/md/privacy.md.  Go values of type [int] are integers of [Z] (the
    code does no arithmetic on them), Go [error]s are values of an inductive
    type with [None] for [nil], slices are lists, and code that changes the
    store or the builder passes the state explicitly. *)

From Stdlib Require Import String ZArith Bool Arith Lia Permutation List.
Import ListNotations.

(** ** Errors *)

(** The Go [error] values that cross the files: [fmt.Errorf] messages,
    [*NotFoundError], the store's constraint errors and the privacy layer's
    deny errors.  [nil] is [None] of [option error]. *)
Inductive error : Type :=
| Errorf (msg : string)
| NotFoundError (label : string)
| ConstraintError (msg : string)
| PolicyDenied (reason : string).

(** ** Package privacy *)

Module privacy.

(** Modelled from the spec: the privacy package (policy evaluation and
    DecisionContext) is not among the sources; section 4.4 of the
    specification and doc/md/privacy.md describe it.  A rule hands back one
    of three decisions. *)
Inductive Decision : Type :=
| Allow
| Deny (reason : string)
| Skip.

(** Modelled from the spec: what one rule evaluation returns.  A rule is a
    Go function returning [error]: a decision, any other error, or [nil]
    (doc/md/privacy.md: skipping is equivalent to returning a nil error). *)
Inductive Outcome : Type :=
| Nil
| Decided (d : Decision)
| Failed (err : string).

(** Modelled from the spec: the two terminal states of an evaluation. *)
Inductive Terminal : Type :=
| Allowed
| Denied (reason : string).

(** Modelled from the spec: the ambient execution context ([context.Context]):
    the values bound to it and, possibly, a bound decision.  The
    specification names only terminal decisions as what a binding yields. *)
Record Ctx : Type := {
  decision : option Terminal;
  values : list (string * string)
}.

(** Modelled from the spec: [privacy.DecisionContext] returns a new context
    with the decision attached. *)
Definition DecisionContext (parent : Ctx) (d : Terminal) : Ctx :=
  {| decision := Some d; values := values parent |}.

Definition background : Ctx := {| decision := None; values := [] |}.

Section Engine.

(** The operation under evaluation: a query or a mutation.  A rule may narrow
    it (the Filter capability), so a rule returns the operation too. *)
Variable Op : Type.

Definition Rule : Type := Ctx -> Op -> Outcome * Op.

(** Modelled from the spec: a policy is an ordered rule list and the
    decision taken when the list is exhausted. *)
Record Policy : Type := {
  rules : list Rule;
  default : Terminal
}.

(** Modelled from the spec: the states of one evaluation.  [Pending i] is
    about to evaluate rule [i]. *)
Inductive Phase : Type :=
| Pending (i : nat)
| Finished (t : Terminal).

(** An evaluation in progress: its phase, the operation as narrowed so far,
    and the indices of the rules evaluated so far, oldest first. *)
Record Eval : Type := {
  phase : Phase;
  op : Op;
  evaluated : list nat
}.

(** Modelled from the spec: the transition taken on the outcome of rule [i]. *)
Definition transition (out : Outcome) (i : nat) : Phase :=
  match out with
  | Decided Allow => Finished Allowed
  | Decided (Deny reason) => Finished (Denied reason)
  | Decided Skip => Pending (S i)
  | Nil => Pending (S i)
  | Failed err => Finished (Denied err)
  end.

(** Modelled from the spec: the initial state.  A decision bound to the
    context is the terminal state before any rule runs. *)
Definition init (ctx : Ctx) (o : Op) : Eval :=
  {| phase := match decision ctx with
              | Some d => Finished d
              | None => Pending 0
              end;
     op := o;
     evaluated := [] |}.

(** Modelled from the spec: one step of the evaluation. *)
Definition step (P : Policy) (ctx : Ctx) (s : Eval) : Eval :=
  match phase s with
  | Finished _ => s
  | Pending i =>
      match nth_error (rules P) i with
      | None =>
          {| phase := Finished (default P); op := op s; evaluated := evaluated s |}
      | Some r =>
          let (out, o') := r ctx (op s) in
          {| phase := transition out i; op := o'; evaluated := evaluated s ++ [i] |}
      end
  end.

Fixpoint iterate (P : Policy) (ctx : Ctx) (n : nat) (s : Eval) : Eval :=
  match n with
  | O => s
  | S n' => iterate P ctx n' (step P ctx s)
  end.

(** Modelled from the spec: a whole evaluation.  One step per rule and one
    for the exhaustion are enough to reach a terminal state. *)
Definition evaluate (P : Policy) (ctx : Ctx) (o : Op) : Eval :=
  iterate P ctx (S (length (rules P))) (init ctx o).

Definition skips (out : Outcome) : bool :=
  match out with
  | Nil | Decided Skip => true
  | _ => false
  end.

End Engine.

Arguments rules {Op} _.
Arguments default {Op} _.
Arguments phase {Op} _.
Arguments op {Op} _.
Arguments evaluated {Op} _.
Arguments init {Op} _ _.
Arguments step {Op} _ _ _.
Arguments iterate {Op} _ _ _ _.
Arguments evaluate {Op} _ _ _.

End privacy.

(** ** Package dialect/sql *)

Module sql.

(** A row of a table: the integer values of its columns, by column name. *)
Definition Row : Type := list (string * Z).

Fixpoint column (c : string) (r : Row) : option Z :=
  match r with
  | [] => None
  | (k, v) :: rest => if String.eqb k c then Some v else column c rest
  end.

(** Modelled from the spec: the boolean conditions a predicate applies to a
    statement builder (comparison, membership, conjunction, disjunction);
    package dialect/sql is not among the sources. *)
Inductive P : Type :=
| EQ (col : string) (v : Z)
| GT (col : string) (v : Z)
| In_ (col : string) (vs : list Z)
| And (p q : P)
| Or (p q : P)
| Not (p : P).

Fixpoint holds (p : P) (r : Row) : bool :=
  match p with
  | EQ c v => match column c r with Some x => Z.eqb x v | None => false end
  | GT c v => match column c r with Some x => Z.ltb v x | None => false end
  | In_ c vs => match column c r with
                | Some x => existsb (Z.eqb x) vs
                | None => false
                end
  | And p q => holds p r && holds q r
  | Or p q => holds p r || holds q r
  | Not p => negb (holds p r)
  end.

(** Modelled from the spec: the statement builder ([sql.Selector]) that
    predicates change in place: the table it selects from and the condition
    accumulated so far, none at first. *)
Record Selector : Type := {
  table : string;
  where_ : option P
}.

Definition Select (t : string) : Selector := {| table := t; where_ := None |}.

(** Modelled from the spec: [Selector.Where] adds a condition to the builder;
    conditions compose by conjunction. *)
Definition Where (s : Selector) (p : P) : Selector :=
  {| table := table s;
     where_ := match where_ s with
               | None => Some p
               | Some w => Some (And w p)
               end |}.

(** The rows a builder selects. *)
Definition selects (s : Selector) (r : Row) : bool :=
  match where_ s with
  | None => true
  | Some w => holds w r
  end.

End sql.

(** ** Package predicate (predicate/predicate.go) *)

Module predicate.

(** The predicate types are Go functions taking a pointer to a
    [sql.Selector]: a predicate changes the selector it is given, and is here
    a function from the selector to the changed one.  All the predicate
    types of the file have this shape. *)
Definition IntSID : Type := sql.Selector -> sql.Selector.
Definition Account : Type := sql.Selector -> sql.Selector.

(** Modelled from the spec: a predicate that applies one boolean condition
    to the builder; the generated files that build predicates (where.go)
    are not among the sources. *)
Definition of_condition (p : sql.P) : IntSID := fun s => sql.Where s p.

End predicate.

(** ** Packages schema/field and dialect/sql/sqlgraph *)

Module field.

(** Of the field types of package schema/field, which is not among the
    sources: [TypeInt64], named by [sqlExec], and the types of the fields
    of tweettag. *)
Inductive Type_ : Type := TypeInt64 | TypeUUID | TypeTime | TypeInt.

End field.

Module sqlgraph.

Record FieldSpec : Type := {
  Type_ : field.Type_;
  Column : string
}.

Record NodeSpec : Type := {
  Table : string;
  ID : FieldSpec
}.

(** [Predicate] is a Go function value: [None] when it was left unset. *)
Record DeleteSpec : Type := {
  Node : NodeSpec;
  Predicate : option (sql.Selector -> sql.Selector)
}.

End sqlgraph.

(** ** Package tweettag (edgeschema/ent/tweettag/tweettag.go) *)

Module tweettag.

Definition Label : string := "tweet_tag".
Definition FieldID : string := "id".
Definition FieldAddedAt : string := "added_at".
Definition FieldTagID : string := "tag_id".
Definition FieldTweetID : string := "tweet_id".
Definition EdgeTag : string := "tag".
Definition EdgeTweet : string := "tweet".
Definition Table : string := "tweet_tags".
Definition TagTable : string := "tweet_tags".
Definition TagInverseTable : string := "tags".
Definition TagColumn : string := "tag_id".
Definition TweetTable : string := "tweet_tags".
Definition TweetInverseTable : string := "tweets".
Definition TweetColumn : string := "tweet_id".

(** [Columns] holds all SQL columns for tweettag fields. *)
Definition Columns : list string :=
  [FieldID; FieldAddedAt; FieldTagID; FieldTweetID].

(** The loop of [ValidColumn] over a column list. *)
Fixpoint ValidColumn_in (cols : list string) (column : string) : bool :=
  match cols with
  | [] => false
  | c :: rest => if String.eqb column c then true else ValidColumn_in rest column
  end.

Definition ValidColumn (column : string) : bool := ValidColumn_in Columns column.

(** The two columns that hold the relation: one per edge of the table. *)
Definition edge_columns : list string := [TagColumn; TweetColumn].

Definition is_edge_column (c : string) : bool :=
  ValidColumn_in edge_columns c.

(** One row of the table [tweet_tags]: a value for each column of
    [Columns], in that order; the UUID and the time are given as
    integers. *)
Record Row : Type := {
  id : Z;
  added_at : Z;
  tag_id : Z;
  tweet_id : Z
}.

Definition pair_of (r : Row) : Z * Z := (tweet_id r, tag_id r).

Definition same_pair (p : Z * Z) (r : Row) : bool :=
  Z.eqb (fst p) (tweet_id r) && Z.eqb (snd p) (tag_id r).

(** Modelled from the spec: the uniqueness constraint of a join table, as
    the store checks it: no two rows with the same (source, target) pair.
    The table declaration (the migrate package) is not among the sources. *)
Definition unique_pairs (t : list Row) : Prop := NoDup (map pair_of t).

(** Modelled from the spec: inserting a join row; the store refuses a row
    that violates the uniqueness constraint. *)
Definition insert (r : Row) (t : list Row) : error + list Row :=
  if existsb (same_pair (pair_of r)) t
  then inl (ConstraintError "tweet_tags: duplicate (tweet_id, tag_id)")
  else inr (t ++ [r]).

(** Modelled from the spec: adding an edge is an insert guarded by
    conflict-ignore semantics where the relation already exists. *)
Definition add_edge (r : Row) (t : list Row) : list Row :=
  match insert r t with
  | inl _ => t
  | inr t' => t'
  end.

(** Modelled from the spec: removing an edge deletes exactly the matching
    join rows. *)
Definition remove_edge (p : Z * Z) (t : list Row) : list Row :=
  filter (fun r => negb (same_pair p r)) t.

Inductive EdgeOp : Type :=
| AddEdge (r : Row)
| RemoveEdge (tweet tag : Z).

Definition apply (t : list Row) (o : EdgeOp) : list Row :=
  match o with
  | AddEdge r => add_edge r t
  | RemoveEdge tweet tag => remove_edge (tweet, tag) t
  end.

Definition apply_all (ops : list EdgeOp) (t : list Row) : list Row :=
  fold_left apply ops t.

End tweettag.

(** ** Package ent (customid/ent/intsid_delete.go) *)

Module ent.

Import privacy.

(** What the file calls and the sources do not hold: [sqlgraph.DeleteNodes]
    with the store behind the builder's driver ([World] is the state of that
    store), and the constants of package intsid. *)
Class Env : Type := {
  World : Type;
  DeleteNodes : Ctx -> sqlgraph.DeleteSpec -> World -> (Z * option error) * World;
  intsid_Table : string;
  intsid_FieldID : string;
  intsid_Label : string
}.

(** The fields of [IntSIDMutation] that the file reads and writes. *)
Record IntSIDMutation : Type := {
  predicates : list predicate.IntSID;
  done : bool
}.

(** A value of the interface [Mutation]: an [*IntSIDMutation] or a mutation
    of another dynamic type, known by the name [%T] prints. *)
Inductive Mutation : Type :=
| IntSIDMut (m : IntSIDMutation)
| OtherMut (typ : string).

(** A value of the interface [Value]. *)
Inductive Value : Type :=
| VNil
| VInt (n : Z)
| VStr (s : string).

(** How a call returns: normally or by [panic]. *)
Inductive Result (A : Type) : Type :=
| Returned (a : A)
| Panicked (e : error).

Arguments Returned {A} _.
Arguments Panicked {A} _.

Section WithEnv.

Context {E : Env}.

(** The body of the mutator a hook returns: it reads and writes the store,
    calls the next mutator of the chain any number of times ([Next]), and
    returns a value and an error.  The variables of [Exec] that the terminal
    closure captures are out of a hook's reach, as in Go. *)
Inductive Prog : Type :=
| Ret (v : Value) (e : option error)
| Get (k : World -> Prog)
| Put (w : World) (k : Prog)
| Next (ctx : Ctx) (m : Mutation) (k : Value -> option error -> Prog).

(** [type Hook func(Mutator) Mutator], given by the body of the mutator it
    returns; a mutation is passed by value, so a hook that changes the
    mutation hands the changed one to [Next].  In Go the mutation is a
    pointer, the one the builder holds: a change made to it in place is
    there for the builder, and for a second call of the next mutator, also
    when the hook does not hand it on.  Such a change is not expressed
    here; what is said of the builder after [Exec] is said of hooks that
    leave the mutation they were given as it is, or hand the changed one to
    the next mutator once, and of chains that get to the terminal mutator,
    which sets the builder's mutation. *)
Definition Hook : Type := Ctx -> Mutation -> Prog.

(** [IntSIDDelete]: a [nil] hook is [None]; the driver of [config] is the
    store of [Env]. *)
Record IntSIDDelete : Type := {
  hooks : list (option Hook);
  mutation : IntSIDMutation
}.

(** What the closure built by [Exec] captures: the variables [affected] and
    [err], and the builder. *)
Record Frame : Type := {
  affected : Z;
  err : option error;
  isd : IntSIDDelete
}.

Definition State : Type := World * Frame.

(** [Mutator]: the method [Mutate(ctx, m)] returning [(Value, error)]. *)
Definition Mutator : Type :=
  Ctx -> Mutation -> State -> (Value * option error) * State.

(** Running a body: [Next] is the call [next.Mutate(ctx, m)]. *)
Fixpoint run (next : Mutator) (p : Prog) (s : State) : (Value * option error) * State :=
  match p with
  | Ret v e => ((v, e), s)
  | Get k => run next (k (fst s)) s
  | Put w k => run next k (w, snd s)
  | Next ctx m k =>
      let '((v, e), s') := next ctx m s in
      run next (k v e) s'
  end.

(** [hooks[i](mut)] *)
Definition wrap (h : Hook) (next : Mutator) : Mutator :=
  fun ctx m => run next (h ctx m).

(** [IntSIDDelete.Where] appends the predicates to the builder's mutation
    ([IntSIDMutation.Where], which the sources do not hold, is taken to
    append, as the comment of [Where] says). *)
Definition IntSIDDelete_Where (d : IntSIDDelete) (ps : list predicate.IntSID) : IntSIDDelete :=
  {| hooks := hooks d;
     mutation := {| predicates := predicates (mutation d) ++ ps;
                    done := done (mutation d) |} |}.

(** The [_spec] that [sqlExec] builds. *)
Definition deleteSpec (d : IntSIDDelete) : sqlgraph.DeleteSpec :=
  let node :=
    {| sqlgraph.Table := intsid_Table;
       sqlgraph.ID := {| sqlgraph.Type_ := field.TypeInt64;
                         sqlgraph.Column := intsid_FieldID |} |} in
  let ps := predicates (mutation d) in
  if 0 <? length ps
  then {| sqlgraph.Node := node;
          sqlgraph.Predicate :=
            Some (fun selector => fold_left (fun s p => p s) ps selector) |}
  else {| sqlgraph.Node := node; sqlgraph.Predicate := None |}.

Definition IntSIDDelete_sqlExec (d : IntSIDDelete) (ctx : Ctx) (w : World)
  : (Z * option error) * World :=
  DeleteNodes ctx (deleteSpec d) w.

Definition unexpected_mutation (typ : string) : error :=
  Errorf ("unexpected mutation type " ++ typ).

Definition uninitialized_hook : error :=
  Errorf "ent: uninitialized hook (forgotten import ent/runtime?)".

(** The [MutateFunc] closure of [Exec]. *)
Definition terminal : Mutator :=
  fun ctx m s =>
    match m with
    | OtherMut typ => ((VNil, Some (unexpected_mutation typ)), s)
    | IntSIDMut mutation' =>
        let d := {| hooks := hooks (isd (snd s)); mutation := mutation' |} in
        let '((n, e), w') := IntSIDDelete_sqlExec d ctx (fst s) in
        let d' := {| hooks := hooks d;
                     mutation := {| predicates := predicates mutation';
                                    done := true |} |} in
        ((VInt n, e), (w', {| affected := n; err := e; isd := d' |}))
    end.

(** The loop [for i := len(isd.hooks) - 1; i >= 0; i--]: [n] is [i + 1],
    at most the length of [hs], so [nth] never falls back on its default. *)
Fixpoint chain (hs : list (option Hook)) (n : nat) (mut : Mutator) : error + Mutator :=
  match n with
  | O => inr mut
  | S i =>
      match nth i hs None with
      | None => inl uninitialized_hook
      | Some h => chain hs i (wrap h mut)
      end
  end.

(** The variables of [Exec] as declared: [affected] is 0 and [err] is nil. *)
Definition frame0 (d : IntSIDDelete) : Frame :=
  {| affected := 0%Z; err := None; isd := d |}.

(** The end of [Exec] once [mut.Mutate] has returned: its error, when not
    nil, is returned with 0; otherwise the captured variables are. *)
Definition Exec_return (out : (Value * option error) * State)
  : (Z * option error) * (World * IntSIDDelete) :=
  let '((_, e), (w', fr)) := out in
  match e with
  | Some e' => ((0%Z, Some e'), (w', isd fr))
  | None => ((affected fr, err fr), (w', isd fr))
  end.

(** [IntSIDDelete.Exec]: the result, the store and the builder after the
    call. *)
Definition IntSIDDelete_Exec (d : IntSIDDelete) (ctx : Ctx) (w : World)
  : (Z * option error) * (World * IntSIDDelete) :=
  if length (hooks d) =? 0 then
    let '((affected, err), w') := IntSIDDelete_sqlExec d ctx w in
    ((affected, err), (w', d))
  else
    match chain (hooks d) (length (hooks d)) terminal with
    | inl e => ((0%Z, Some e), (w, d))
    | inr mut => Exec_return (mut ctx (IntSIDMut (mutation d)) (w, frame0 d))
    end.

(** [IntSIDDelete.ExecX] *)
Definition IntSIDDelete_ExecX (d : IntSIDDelete) (ctx : Ctx) (w : World)
  : Result Z * (World * IntSIDDelete) :=
  let '((n, e), s) := IntSIDDelete_Exec d ctx w in
  match e with
  | Some e' => (Panicked e', s)
  | None => (Returned n, s)
  end.

Record IntSIDDeleteOne : Type := {
  isd_ : IntSIDDelete
}.

(** [IntSIDDeleteOne.Exec] *)
Definition IntSIDDeleteOne_Exec (o : IntSIDDeleteOne) (ctx : Ctx) (w : World)
  : option error * (World * IntSIDDelete) :=
  let '((n, e), s) := IntSIDDelete_Exec (isd_ o) ctx w in
  match e with
  | Some e' => (Some e', s)
  | None => if Z.eqb n 0 then (Some (NotFoundError intsid_Label), s) else (None, s)
  end.

(** [IntSIDDeleteOne.ExecX] *)
Definition IntSIDDeleteOne_ExecX (o : IntSIDDeleteOne) (ctx : Ctx) (w : World)
  : Result unit * (World * IntSIDDelete) :=
  match IntSIDDelete_ExecX (isd_ o) ctx w with
  | (Returned _, s) => (Returned tt, s)
  | (Panicked e, s) => (Panicked e, s)
  end.

(** The captured variables hold what they were declared with or the result
    of a call of [sqlExec]. *)
Definition captured (fr : Frame) : Prop :=
  (affected fr, err fr) = (0%Z, None) \/
  exists d ctx w, fst (IntSIDDelete_sqlExec d ctx w) = (affected fr, err fr).

(** A program that never calls the next mutator. *)
Inductive short_circuits : Prog -> Prop :=
| sc_ret v e : short_circuits (Ret v e)
| sc_get k : (forall w, short_circuits (k w)) -> short_circuits (Get k)
| sc_put w k : short_circuits k -> short_circuits (Put w k).

(** [unreached hs p]: the program [p], run with the hooks [hs] around the
    terminal mutator as its next mutator, never gets to the terminal
    mutator: every call of [Next] ends in a hook that returns without
    calling on. *)
Inductive unreached : list Hook -> Prog -> Prop :=
| un_ret hs v e : unreached hs (Ret v e)
| un_get hs k : (forall w, unreached hs (k w)) -> unreached hs (Get k)
| un_put hs w k : unreached hs k -> unreached hs (Put w k)
| un_next h rest ctx m k :
    unreached rest (h ctx m) ->
    (forall v e, unreached (h :: rest) (k v e)) ->
    unreached (h :: rest) (Next ctx m k).

(** Modelled from the spec: the policy engine as the first interceptor of
    the mutator chain.  A denial surfaces as a typed error and the next
    mutator is not called; on Allow the mutation, as the rules narrowed it,
    goes on.  The last case is never taken: an evaluation always finishes. *)
Definition policy_hook (P : Policy Mutation) : Hook :=
  fun ctx m =>
    let s := evaluate P ctx m in
    match phase s with
    | Finished Allowed => Next ctx (op s) (fun v e => Ret v e)
    | Finished (Denied reason) => Ret VNil (Some (PolicyDenied reason))
    | Pending _ => Ret VNil (Some (Errorf "privacy: evaluation pending"))
    end.

(** Modelled from the spec: [Execute(MutationSpec, ctx)] for a delete: the
    builder's chain with the policy engine first. *)
Definition Execute (P : Policy Mutation) (d : IntSIDDelete) (ctx : Ctx) (w : World)
  : (Z * option error) * (World * IntSIDDelete) :=
  IntSIDDelete_Exec {| hooks := Some (policy_hook P) :: hooks d;
                       mutation := mutation d |} ctx w.

End WithEnv.

End ent.

(** ** A store for the table of IntSID rows *)

Module store.

(** Modelled from the spec: the store behind the driver, holding the rows
    of one table and the statements executed on it, oldest first.  Delete
    removes the rows the statement selects and returns their count. *)
Record DB : Type := {
  rows : list sql.Row;
  statements : list sql.Selector
}.

Definition statement (spec : sqlgraph.DeleteSpec) : sql.Selector :=
  let selector := sql.Select (sqlgraph.Table (sqlgraph.Node spec)) in
  match sqlgraph.Predicate spec with
  | Some pred => pred selector
  | None => selector
  end.

Definition delete_nodes (ctx : privacy.Ctx) (spec : sqlgraph.DeleteSpec) (db : DB)
  : (Z * option error) * DB :=
  let selector := statement spec in
  ((Z.of_nat (length (filter (sql.selects selector) (rows db))), None),
   {| rows := filter (fun r => negb (sql.selects selector r)) (rows db);
      statements := statements db ++ [selector] |}).

Definition env : ent.Env :=
  {| ent.World := DB;
     ent.DeleteNodes := delete_nodes;
     ent.intsid_Table := "int_sids";
     ent.intsid_FieldID := "id";
     ent.intsid_Label := "int_sid" |}.

(** A store that refuses every delete, for the error paths. *)
Definition failing_env : ent.Env :=
  {| ent.World := DB;
     ent.DeleteNodes := fun _ _ db => ((0%Z, Some (ConstraintError "foreign key")), db);
     ent.intsid_Table := "int_sids";
     ent.intsid_FieldID := "id";
     ent.intsid_Label := "int_sid" |}.

End store.

(** ** Sample rules, hooks, builders and stores *)

Module samples.

Import privacy ent.

Definition id_is (n : Z) : predicate.IntSID := predicate.of_condition (sql.EQ "id" n).

Definition where_id (n : Z) : IntSIDMutation :=
  {| predicates := [id_is n]; done := false |}.

Definition narrowed (c : sql.P) (m : IntSIDMutation) : IntSIDMutation :=
  {| predicates := predicates m ++ [predicate.of_condition c]; done := done m |}.

Definition skip_rule : Rule Mutation := fun _ m => (Decided Skip, m).
Definition nil_rule : Rule Mutation := fun _ m => (Nil, m).
Definition allow_rule : Rule Mutation := fun _ m => (Decided Allow, m).
Definition deny_rule (reason : string) : Rule Mutation :=
  fun _ m => (Decided (Deny reason), m).
Definition error_rule (msg : string) : Rule Mutation := fun _ m => (Failed msg, m).

(** A filter rule: it narrows the mutation and skips. *)
Definition filter_rule (c : sql.P) : Rule Mutation :=
  fun _ m =>
    match m with
    | IntSIDMut mu => (Decided Skip, IntSIDMut (narrowed c mu))
    | OtherMut _ => (Decided (Deny "unexpected filter type"), m)
    end.

Definition allow_second : Policy Mutation :=
  {| rules := [skip_rule; allow_rule; error_rule "evaluated after Allow"];
     default := Denied "exhausted" |}.

Definition deny_second : Policy Mutation :=
  {| rules := [nil_rule; deny_rule "not an admin"; allow_rule];
     default := Allowed |}.

Definition error_first : Policy Mutation :=
  {| rules := [error_rule "viewer lookup failed"; allow_rule];
     default := Allowed |}.

Definition skip_first : Policy Mutation :=
  {| rules := [filter_rule (sql.EQ "tenant_id" 7); allow_rule];
     default := Denied "exhausted" |}.

Definition all_skip (dflt : Terminal) : Policy Mutation :=
  {| rules := [skip_rule; nil_rule; filter_rule (sql.EQ "tenant_id" 7)];
     default := dflt |}.

Definition deny_all : Policy Mutation :=
  {| rules := [deny_rule "mutations are denied"]; default := Denied "exhausted" |}.

Definition db0 : store.DB :=
  {| store.rows := [[("id"%string, 5%Z)]; [("id"%string, 6%Z)]];
     store.statements := [] |}.

Definition show (v : Value) : string :=
  match v with
  | VNil => "nil"
  | VInt _ => "sql"
  | VStr s => s
  end.

(** A hook that narrows the mutation, calls the next mutator and wraps the
    value it gets back in its name. *)
Definition tag (name : string) (c : sql.P) : @Hook store.env :=
  fun ctx m =>
    match m with
    | IntSIDMut mu =>
        Next ctx (IntSIDMut (narrowed c mu))
             (fun v e => Ret (VStr (name ++ "(" ++ show v ++ ")")) e)
    | OtherMut _ => Next ctx m (fun v e => Ret v e)
    end.

(** A hook that returns a value without calling the next mutator. *)
Definition short (v : Value) : @Hook store.env := fun _ _ => Ret v None.

(** A hook that calls the next mutator and drops its error. *)
Definition swallow : @Hook store.failing_env :=
  fun ctx m => Next ctx m (fun v _ => Ret v None).

Definition delete_id (n : Z) : @IntSIDDelete store.env :=
  {| hooks := []; mutation := where_id n |}.

Definition delete_all : @IntSIDDelete store.env :=
  {| hooks := []; mutation := {| predicates := []; done := false |} |}.

Definition hooked (hs : list (option (@Hook store.env))) (n : Z) : @IntSIDDelete store.env :=
  {| hooks := hs; mutation := where_id n |}.

Definition join0 : list tweettag.EdgeOp :=
  [tweettag.AddEdge {| tweettag.id := 1; tweettag.added_at := 10; tweettag.tag_id := 3; tweettag.tweet_id := 7 |};
   tweettag.AddEdge {| tweettag.id := 2; tweettag.added_at := 11; tweettag.tag_id := 3; tweettag.tweet_id := 7 |};
   tweettag.AddEdge {| tweettag.id := 3; tweettag.added_at := 12; tweettag.tag_id := 4; tweettag.tweet_id := 7 |};
   tweettag.RemoveEdge 7 4].

End samples.

(** ** Hooks by what they do with the call *)

Module hook.

Import privacy ent.

Section WithEnv.

Context {E : Env}.

(** A hook that only calls the next mutator and returns what it returns. *)
Definition pass : Hook := fun ctx m => Next ctx m (fun v e => Ret v e).

(** A hook is transparent when wrapping a mutator with it gives a mutator
    that behaves as the wrapped one. *)
Definition transparent (h : Hook) : Prop :=
  forall (next : Mutator) ctx m s, wrap h next ctx m s = next ctx m s.

(** A hook that calls the next mutator with another mutation. *)
Definition replace (m' : Mutation) : Hook :=
  fun ctx _ => Next ctx m' (fun v e => Ret v e).

(** A hook that adds a condition to an IntSID mutation and calls on. *)
Definition narrow (c : sql.P) : Hook :=
  fun ctx m =>
    match m with
    | IntSIDMut mu => Next ctx (IntSIDMut (samples.narrowed c mu)) (fun v e => Ret v e)
    | OtherMut _ => Next ctx m (fun v e => Ret v e)
    end.


(** A hook that calls the next mutator twice and returns what the second
    call returns. *)
Definition twice : Hook :=
  fun ctx m => Next ctx m (fun _ _ => Next ctx m (fun v e => Ret v e)).

(** A hook that calls the next mutator and then returns an error of its
    own. *)
Definition fail_after (e : error) : Hook := fun ctx m => Next ctx m (fun _ _ => Ret VNil (Some e)).

(** A hook that returns a value and an error without calling the next
    mutator. *)
Definition answer (v : Value) (e : option error) : Hook := fun _ _ => Ret v e.

(** A hook that calls the next mutator and makes the value and the error it
    returns out of the pair it gets back. *)
Definition after (f : Value -> option error -> Value)
    (g : Value -> option error -> option error) : Hook :=
  fun ctx m => Next ctx m (fun v e => Ret (f v e) (g v e)).

(** What [Exec] with hooks makes of the result of [sqlExec] when the chain
    hands it back as it is: an error comes with 0. *)
Definition through_chain (r : Z * option error) : Z * option error :=
  match snd r with
  | Some e => (0%Z, Some e)
  | None => r
  end.

Definition mark_done (m : IntSIDMutation) : IntSIDMutation :=
  {| predicates := predicates m; done := true |}.

End WithEnv.

End hook.

(** ** The viewer and the rules of the admin-only example (doc/md/privacy.md) *)

Module viewer.

(** What the rules of the examples ask of a viewer. *)
Record Viewer : Type := {
  Admin : bool;
  Tenant : option Z
}.

End viewer.

Module privacyadmin.

Import privacy.

Section Rules.

Variable Op : Type.

(** [viewer.FromContext], which the sources do not hold: the viewer bound
    to a context, [None] for nil. *)
Variable FromContext : Ctx -> option viewer.Viewer.

(** The reason carried by [privacy.Deny]. *)
Variable deny : string.

(** [rule.DenyIfNoViewer] *)
Definition DenyIfNoViewer : Rule Op :=
  fun ctx o =>
    match FromContext ctx with
    | None => (Decided (Deny "viewer-context is missing"), o)
    | Some _ => (Decided Skip, o)
    end.

(** [rule.AllowIfAdmin].  With no viewer the Go code calls a method of a nil
    viewer; the outcome given for that case stands for the panic. *)
Definition AllowIfAdmin : Rule Op :=
  fun ctx o =>
    match FromContext ctx with
    | Some view => if viewer.Admin view then (Decided Allow, o) else (Decided Skip, o)
    | None => (Failed "nil viewer", o)
    end.

(** [privacy.AlwaysDenyRule] and [privacy.AlwaysAllowRule], by their names. *)
Definition AlwaysDenyRule : Rule Op := fun _ o => (Decided (Deny deny), o).
Definition AlwaysAllowRule : Rule Op := fun _ o => (Decided Allow, o).

(** The policy of [User] in the example, with the decision on exhaustion
    left open. *)
Definition UserMutationPolicy (dflt : Terminal) : Policy Op :=
  {| rules := [DenyIfNoViewer; AllowIfAdmin; AlwaysDenyRule]; default := dflt |}.

Definition UserQueryPolicy (dflt : Terminal) : Policy Op :=
  {| rules := [AlwaysAllowRule]; default := dflt |}.

End Rules.

(** A way to bind a viewer to the contexts of this file: its role under the
    key "role". *)
Fixpoint lookup (k : string) (kvs : list (string * string)) : option string :=
  match kvs with
  | [] => None
  | (k', v) :: rest => if String.eqb k' k then Some v else lookup k rest
  end.

Definition role_viewer (ctx : Ctx) : option viewer.Viewer :=
  match lookup "role" (values ctx) with
  | None => None
  | Some r => Some {| viewer.Admin := String.eqb r "admin"; viewer.Tenant := None |}
  end.

Definition with_role (r : string) : Ctx :=
  {| decision := None; values := [("role"%string, r)] |}.

End privacyadmin.

(** ** The filter rule of the multi-tenancy example (doc/md/privacy.md) *)

Module privacytenant.

Import privacy.

Section Rules.

(** [viewer.FromContext], which the sources do not hold. *)
Variable FromContext : Ctx -> option viewer.Viewer.



End Rules.




End privacytenant.

(** ** A store that answers every delete alike *)

Module answering.

(** A store whose [DeleteNodes] returns the given count and error and
    changes nothing. *)
Definition env (r : Z * option error) : ent.Env :=
  {| ent.World := store.DB;
     ent.DeleteNodes := fun _ _ db => (r, db);
     ent.intsid_Table := "int_sids";
     ent.intsid_FieldID := "id";
     ent.intsid_Label := "int_sid" |}.

End answering.

(** * Facts *)

(** ** The policy engine *)

Module PolicyFacts.

Import privacy.

Section Engine.

Variable Op : Type.
Variable P : Policy Op.
Variable ctx : Ctx.

Lemma step_finished (s : Eval Op) (t : Terminal) :
  phase s = Finished t -> step P ctx s = s.
Proof. intros H. unfold step. now rewrite H. Qed.

Lemma iterate_finished (n : nat) (s : Eval Op) (t : Terminal) :
  phase s = Finished t -> iterate P ctx n s = s.
Proof.
  induction n as [|n IH]; intros H; simpl; [reflexivity|].
  rewrite (step_finished s t H). now apply IH.
Qed.

Lemma iterate_succ (n : nat) (s : Eval Op) :
  iterate P ctx (S n) s = step P ctx (iterate P ctx n s).
Proof.
  revert s. induction n as [|n IH]; intros s; [reflexivity|].
  change (iterate P ctx (S (S n)) s) with (iterate P ctx (S n) (step P ctx s)).
  rewrite IH. reflexivity.
Qed.

Lemma iterate_plus (n m : nat) (s : Eval Op) :
  iterate P ctx (n + m) s = iterate P ctx m (iterate P ctx n s).
Proof.
  revert s. induction n as [|n IH]; intros s; simpl; [reflexivity|]. apply IH.
Qed.

(** The step taken from a pending state whose rule exists. *)
Lemma step_pending (s : Eval Op) (i : nat) (r : Rule Op) :
  phase s = Pending i -> nth_error (rules P) i = Some r ->
  step P ctx s =
  {| phase := transition (fst (r ctx (op s))) i;
     op := snd (r ctx (op s));
     evaluated := evaluated s ++ [i] |}.
Proof.
  intros Hp Hr. unfold step. rewrite Hp, Hr.
  destruct (r ctx (op s)) as [out o']. reflexivity.
Qed.

(** A pending state reached after [k] steps is about to evaluate rule [k],
    has evaluated the rules before it in order, and no decision is bound. *)
Lemma pending_after (o : Op) (k i : nat) :
  phase (iterate P ctx k (init ctx o)) = Pending i ->
  i = k /\ evaluated (iterate P ctx k (init ctx o)) = seq 0 k /\
  i <= length (rules P) /\ decision ctx = None.
Proof.
  revert i. induction k as [|k IH]; intros i H.
  - simpl in H |- *. unfold init in H. simpl in H.
    destruct (decision ctx); [discriminate|]. inversion H. repeat split; lia.
  - rewrite iterate_succ in H |- *.
    destruct (phase (iterate P ctx k (init ctx o))) as [j|t] eqn:Hk.
    + destruct (IH j eq_refl) as (-> & Hev & Hle & Hd).
      destruct (nth_error (rules P) k) as [r|] eqn:Hr.
      * rewrite (step_pending _ k r Hk Hr) in H |- *.
        cbn [phase op evaluated] in H |- *.
        assert (Hlt : k < length (rules P))
          by (apply nth_error_Some; congruence).
        destruct (fst (r ctx (op (iterate P ctx k (init ctx o))))) as [|[]|];
          simpl in H; try discriminate; inversion H; subst;
          rewrite Hev, seq_S; repeat split; auto.
      * unfold step in H. rewrite Hk, Hr in H. discriminate.
    + rewrite (step_finished _ t Hk) in H. congruence.
Qed.

(** Once rule [i], reached after [k] steps, ends the evaluation, the
    evaluation's result is the state right after that rule. *)
Lemma evaluate_stops (o : Op) (k i : nat) (r : Rule Op) (t : Terminal) :
  phase (iterate P ctx k (init ctx o)) = Pending i ->
  nth_error (rules P) i = Some r ->
  transition (fst (r ctx (op (iterate P ctx k (init ctx o))))) i = Finished t ->
  evaluate P ctx o =
  {| phase := Finished t;
     op := snd (r ctx (op (iterate P ctx k (init ctx o))));
     evaluated := seq 0 (S i) |}.
Proof.
  intros Hp Hr Ht.
  destruct (pending_after o k i Hp) as (-> & Hev & _ & _).
  assert (Hlt : k < length (rules P)) by (apply nth_error_Some; congruence).
  unfold evaluate.
  replace (S (length (rules P))) with (S k + (length (rules P) - k)) by lia.
  rewrite iterate_plus, iterate_succ, (step_pending _ k r Hp Hr), Ht, Hev, <- seq_S.
  now apply iterate_finished with (t := t).
Qed.

(** Every evaluation reaches a terminal state. *)
Lemma evaluate_finishes (o : Op) :
  exists t, phase (evaluate P ctx o) = Finished t.
Proof.
  unfold evaluate.
  destruct (phase (iterate P ctx (S (length (rules P))) (init ctx o))) as [i|t] eqn:H.
  - destruct (pending_after o _ i H) as (-> & _ & Hle & _). lia.
  - now exists t.
Qed.

(** When every rule skips where the evaluation meets it, rule [k] is pending
    after [k] steps. *)
Lemma skipping_reaches (o : Op) (k : nat) :
  decision ctx = None ->
  (forall j r, nth_error (rules P) j = Some r ->
     skips (fst (r ctx (op (iterate P ctx j (init ctx o))))) = true) ->
  k <= length (rules P) ->
  phase (iterate P ctx k (init ctx o)) = Pending k.
Proof.
  intros Hd Hskip. induction k as [|k IH]; intros Hk.
  - simpl. unfold init. simpl. now rewrite Hd.
  - rewrite iterate_succ.
    destruct (nth_error (rules P) k) as [r|] eqn:Hr.
    + rewrite (step_pending _ k r (IH ltac:(lia)) Hr). simpl.
      pose proof (Hskip k r Hr) as Hs.
      destruct (fst (r ctx (op (iterate P ctx k (init ctx o))))) as [|[]|];
        simpl in Hs; try discriminate; reflexivity.
    + apply nth_error_None in Hr. lia.
Qed.

End Engine.

(** C1: the transition taken on the outcome of rule [i], whenever the
    evaluation reaches it: Allow ends the evaluation in Allowed, Deny(reason)
    in Denied(reason) and any other error in Denied(error), and in the three
    cases exactly the rules 0..i have been evaluated, none after [i]; Skip
    (or nil) moves on to rule [i + 1]. *)
Theorem rule_transition (Op : Type) (P : Policy Op) (ctx : Ctx) (o : Op)
    (k i : nat) (r : Rule Op) :
  let s := iterate P ctx k (init ctx o) in
  let final := evaluate P ctx o in
  phase s = Pending i ->
  nth_error (rules P) i = Some r ->
  match fst (r ctx (op s)) with
  | Decided Allow =>
      phase final = Finished Allowed /\ evaluated final = seq 0 (S i) /\
      forall j, i < j -> ~ In j (evaluated final)
  | Decided (Deny reason) =>
      phase final = Finished (Denied reason) /\ evaluated final = seq 0 (S i) /\
      forall j, i < j -> ~ In j (evaluated final)
  | Failed e =>
      phase final = Finished (Denied e) /\ evaluated final = seq 0 (S i) /\
      forall j, i < j -> ~ In j (evaluated final)
  | Decided Skip | Nil =>
      phase (step P ctx s) = Pending (S i) /\
      op (step P ctx s) = snd (r ctx (op s)) /\
      evaluated (step P ctx s) = seq 0 (S i)
  end.
Proof.
  intros s final Hp Hr.
  assert (Hstop : forall t, transition (fst (r ctx (op s))) i = Finished t ->
            phase final = Finished t /\ evaluated final = seq 0 (S i) /\
            forall j, i < j -> ~ In j (evaluated final)).
  { intros t Ht. unfold final.
    rewrite (evaluate_stops Op P ctx o k i r t Hp Hr Ht).
    cbn [phase op evaluated].
    repeat split. intros j Hj Hin.
    apply in_seq in Hin. lia. }
  assert (Hgo : transition (fst (r ctx (op s))) i = Pending (S i) ->
            phase (step P ctx s) = Pending (S i) /\
            op (step P ctx s) = snd (r ctx (op s)) /\
            evaluated (step P ctx s) = seq 0 (S i)).
  { intros Ht. rewrite (step_pending Op P ctx s i r Hp Hr).
    cbn [phase op evaluated].
    destruct (pending_after Op P ctx o k i Hp) as (-> & Hev & _ & _).
    fold s in Hev. rewrite Hev, Ht, <- seq_S. auto. }
  destruct (fst (r ctx (op s))) as [|[| reason |]| e]; simpl in *; auto.
Qed.

(** C2: with no decision bound to the context, a rule list whose rules all
    skip (return Skip or nil) where the evaluation meets them ends in the
    policy's configured default, after evaluating every rule once, in
    order. *)
Theorem all_skip_yields_default (Op : Type) (P : Policy Op) (ctx : Ctx) (o : Op) :
  decision ctx = None ->
  (forall j r, nth_error (rules P) j = Some r ->
     skips (fst (r ctx (op (iterate P ctx j (init ctx o))))) = true) ->
  phase (evaluate P ctx o) = Finished (default P) /\
  evaluated (evaluate P ctx o) = seq 0 (length (rules P)).
Proof.
  intros Hd Hskip.
  pose proof (skipping_reaches Op P ctx o (length (rules P)) Hd Hskip (le_n _)) as Hp.
  destruct (pending_after Op P ctx o _ _ Hp) as (_ & Hev & _ & _).
  unfold evaluate. rewrite iterate_succ. unfold step. rewrite Hp.
  replace (nth_error (rules P) (length (rules P))) with (@None (Rule Op))
    by (symmetry; apply nth_error_None; lia).
  simpl. auto.
Qed.

(** The engine's part of C3: a decision bound to the context is the terminal
    state, no rule is evaluated and the operation is left as it was. *)
Lemma bound_decision_wins (Op : Type) (P : Policy Op) (ctx : Ctx) (d : Terminal) (o : Op) :
  evaluate P (DecisionContext ctx d) o =
  {| phase := Finished d; op := o; evaluated := [] |}.
Proof.
  unfold evaluate. now apply iterate_finished with (t := d).
Qed.

(** Rules after the one that ends the evaluation do not matter: two
    policies that agree up to rule [i] evaluate alike. *)
Lemma later_rules_ignored (Op : Type) (P Q : Policy Op) (ctx : Ctx) (o : Op)
    (k i : nat) (r : Rule Op) (t : Terminal) :
  firstn (S i) (rules P) = firstn (S i) (rules Q) ->
  phase (iterate P ctx k (init ctx o)) = Pending i ->
  nth_error (rules P) i = Some r ->
  transition (fst (r ctx (op (iterate P ctx k (init ctx o))))) i = Finished t ->
  evaluate Q ctx o = evaluate P ctx o.
Proof.
  intros Hfirst Hp Hr Ht.
  destruct (pending_after Op P ctx o k i Hp) as (-> & _ & _ & _).
  assert (Hnth : forall j, j <= k -> nth_error (rules Q) j = nth_error (rules P) j).
  { intros j Hj.
    pose proof (nth_error_firstn (S k) (rules Q) j) as HQ.
    pose proof (nth_error_firstn (S k) (rules P) j) as HP.
    replace (Nat.ltb j (S k)) with true in HQ, HP
      by (symmetry; apply Nat.ltb_lt; lia).
    now rewrite <- HQ, <- HP, Hfirst. }
  assert (Hsame : forall j, j <= k ->
            iterate Q ctx j (init ctx o) = iterate P ctx j (init ctx o)).
  { induction j as [|j IH]; intros Hj; [reflexivity|].
    rewrite !iterate_succ, IH by lia.
    unfold step.
    destruct (phase (iterate P ctx j (init ctx o))) as [j'|] eqn:Hj'; [|reflexivity].
    destruct (pending_after Op P ctx o j j' Hj') as (-> & _).
    rewrite Hnth by lia.
    destruct (nth_error (rules P) j) eqn:Hnone; [reflexivity|].
    apply nth_error_None in Hnone.
    assert (k < length (rules P)) by (apply nth_error_Some; congruence). lia. }
  rewrite (evaluate_stops Op P ctx o k k r t Hp Hr Ht).
  rewrite <- (Hsame k (le_n k)).
  apply (evaluate_stops Op Q ctx o k k r t); rewrite ?Hsame, ?Hnth by lia; auto.
Qed.

End PolicyFacts.

(** ** The delete builders *)

Module DeleteFacts.

Import privacy ent.

Section WithEnv.

Context {E : Env}.

(** The loop over the first [length pre] hooks, none of them nil, wraps the
    mutator from the last of them inward. *)
Lemma chain_prefix (pre : list Hook) :
  forall (post : list (option Hook)) (mut : Mutator),
  chain (map Some pre ++ post) (length pre) mut = inr (fold_right wrap mut pre).
Proof.
  induction pre as [|h pre IH] using rev_ind; intros post mut; [reflexivity|].
  rewrite length_app, Nat.add_1_r, map_app, <- app_assoc, fold_right_app.
  cbn [chain map app fold_right].
  rewrite <- (length_map Some pre) at 1. rewrite nth_middle.
  apply IH.
Qed.

Lemma chain_all (hs : list Hook) (mut : Mutator) :
  chain (map Some hs) (length (map Some hs)) mut = inr (fold_right wrap mut hs).
Proof.
  rewrite length_map. rewrite <- (app_nil_r (map Some hs)). apply chain_prefix.
Qed.

(** A nil hook at an index the loop reaches ends it with the error. *)
Lemma chain_nil_hook (hs : list (option Hook)) (i : nat) :
  nth_error hs i = Some None ->
  forall (n : nat) (mut : Mutator), i < n -> chain hs n mut = inl uninitialized_hook.
Proof.
  intros Hi. induction n as [|n IH]; intros mut Hn; [lia|].
  cbn [chain]. destruct (nth n hs None) as [h|] eqn:Hh; [|reflexivity].
  destruct (Nat.eq_dec i n) as [->|Hne].
  - rewrite (nth_error_nth hs n None Hi) in Hh. discriminate.
  - apply IH. lia.
Qed.

Lemma Exec_hooked (d : IntSIDDelete) (h : Hook) (rest : list Hook) (ctx : Ctx) (w : World) :
  hooks d = map Some (h :: rest) ->
  IntSIDDelete_Exec d ctx w =
  Exec_return (fold_right wrap terminal (h :: rest) ctx (IntSIDMut (mutation d)) (w, frame0 d)).
Proof.
  intros Hh. unfold IntSIDDelete_Exec. rewrite Hh, chain_all. reflexivity.
Qed.

(** A program that never calls the next mutator leaves the captured
    variables and the builder alone, whatever the next mutator is. *)
Lemma run_short_circuit (p : Prog) :
  short_circuits p ->
  forall (next : Mutator) (s : State), snd (snd (run next p s)) = snd s.
Proof.
  induction 1 as [v e|k Hk IH|w k Hk IH]; intros next s; cbn [run].
  - reflexivity.
  - apply IH.
  - now rewrite IH.
Qed.

Lemma terminal_captured (ctx : Ctx) (m : Mutation) (s : State) :
  captured (snd s) -> captured (snd (snd (terminal ctx m s))).
Proof.
  intros Hs. unfold terminal. destruct m as [mutation'|typ]; [|exact Hs].
  destruct (IntSIDDelete_sqlExec _ ctx (fst s)) as [[n e] w'] eqn:Hx.
  right. eexists _, ctx, (fst s). rewrite Hx. reflexivity.
Qed.

(** Whatever the hooks do, the captured variables hold 0 and nil or the
    result of a call of [sqlExec]. *)
Lemma run_captured (hs : list Hook) :
  forall (p : Prog) (s : State),
  captured (snd s) -> captured (snd (snd (run (fold_right wrap terminal hs) p s))).
Proof.
  induction hs as [|h hs IHhs];
    induction p as [v e|k IHk|w k IHk|ctx m k IHk]; intros s Hs; cbn [run];
    try (exact Hs); try (now apply IHk).
  - cbn [fold_right].
    pose proof (terminal_captured ctx m s Hs) as Ht.
    destruct (terminal ctx m s) as [[v e] s']. now apply IHk.
  - cbn [fold_right]. unfold wrap at 1.
    pose proof (IHhs (h ctx m) s Hs) as Ht.
    destruct (run (fold_right wrap terminal hs) (h ctx m) s) as [[v e] s'].
    now apply IHk.
Qed.

(** C4: for a hook list h1..hn with no nil entry, [Exec] wraps the terminal
    mutator from the last-registered hook inward, so the mutator it runs is
    h1(h2(...hn(terminal))): the body of h1 runs first, on the builder's
    mutation, with h2(...hn(terminal)) as its next mutator, and what h1
    returns is what [Exec] goes on with. *)
Theorem Exec_hook_chain_order (h1 : Hook) (rest : list Hook) (m : IntSIDMutation)
    (ctx : Ctx) (w : World) :
  let d := {| hooks := map Some (h1 :: rest); mutation := m |} in
  chain (hooks d) (length (hooks d)) terminal
    = inr (fold_right wrap terminal (h1 :: rest)) /\
  fold_right wrap terminal (h1 :: rest)
    = wrap h1 (fold_right wrap terminal rest) /\
  IntSIDDelete_Exec d ctx w =
    Exec_return (run (fold_right wrap terminal rest) (h1 ctx (IntSIDMut m)) (w, frame0 d)).
Proof.
  intros d. split; [apply chain_all|]. split; [reflexivity|].
  now rewrite (Exec_hooked d h1 rest ctx w eq_refl).
Qed.

(** C5: with a nil entry at some index of the hook list, [Exec] returns 0
    and the uninitialized-hook error: the loop that builds the chain ends
    with the error, so no mutator is invoked, and the store and the builder
    are as before, whatever [DeleteNodes] does. *)
Theorem Exec_uninitialized_hook (d : IntSIDDelete) (ctx : Ctx) (w : World) (i : nat) :
  nth_error (hooks d) i = Some None ->
  chain (hooks d) (length (hooks d)) terminal = inl uninitialized_hook /\
  IntSIDDelete_Exec d ctx w = ((0%Z, Some uninitialized_hook), (w, d)).
Proof.
  intros Hi.
  assert (Hlt : i < length (hooks d)) by (apply nth_error_Some; congruence).
  pose proof (chain_nil_hook (hooks d) i Hi (length (hooks d)) terminal Hlt) as Hc.
  split; [exact Hc|].
  unfold IntSIDDelete_Exec. rewrite Hc.
  destruct (length (hooks d)) eqn:Hl; [lia|]. reflexivity.
Qed.

(** Without hooks [Exec] is [sqlExec]. *)
Lemma Exec_no_hooks (d : IntSIDDelete) (ctx : Ctx) (w : World) :
  hooks d = [] ->
  IntSIDDelete_Exec d ctx w =
  (fst (IntSIDDelete_sqlExec d ctx w), (snd (IntSIDDelete_sqlExec d ctx w), d)).
Proof.
  intros Hh. unfold IntSIDDelete_Exec. rewrite Hh. cbn [length Nat.eqb].
  now destruct (IntSIDDelete_sqlExec d ctx w) as [[n e] w'].
Qed.

(** C6: when the delete reports zero affected rows and no error, [Exec] of
    the builder without hooks returns 0 and nil; whenever [Exec] returns 0
    and nil, [IntSIDDeleteOne.Exec] returns a NotFoundError for the label of
    intsid; and whenever [Exec] returns one or more rows and nil,
    [IntSIDDeleteOne.Exec] returns nil. *)
Theorem DeleteOne_Exec_not_found (d : IntSIDDelete) (ctx : Ctx) (w : World) :
  (hooks d = [] ->
   forall w', DeleteNodes ctx (deleteSpec d) w = ((0%Z, None), w') ->
   IntSIDDelete_Exec d ctx w = ((0%Z, None), (w', d))) /\
  (forall s, IntSIDDelete_Exec d ctx w = ((0%Z, None), s) ->
   IntSIDDeleteOne_Exec {| isd_ := d |} ctx w = (Some (NotFoundError intsid_Label), s)) /\
  (forall n s, (1 <= n)%Z -> IntSIDDelete_Exec d ctx w = ((n, None), s) ->
   IntSIDDeleteOne_Exec {| isd_ := d |} ctx w = (None, s)).
Proof.
  repeat split.
  - intros Hh w' Hd. rewrite (Exec_no_hooks d ctx w Hh).
    unfold IntSIDDelete_sqlExec. now rewrite Hd.
  - intros s Hx. unfold IntSIDDeleteOne_Exec. cbn [isd_]. now rewrite Hx.
  - intros n s Hn Hx. unfold IntSIDDeleteOne_Exec. cbn [isd_]. rewrite Hx.
    destruct (Z.eqb_spec n 0); [lia|reflexivity].
Qed.

(** An error of [Exec] is the error of [IntSIDDeleteOne.Exec]. *)
Lemma DeleteOne_Exec_error (d : IntSIDDelete) (ctx : Ctx) (w : World) n e s :
  IntSIDDelete_Exec d ctx w = ((n, Some e), s) ->
  IntSIDDeleteOne_Exec {| isd_ := d |} ctx w = (Some e, s).
Proof.
  intros Hx. unfold IntSIDDeleteOne_Exec. cbn [isd_]. now rewrite Hx.
Qed.

(** Applying predicates built from conditions, in order, to a selector. *)
Lemma apply_conditions (cs : list sql.P) :
  forall (s : sql.Selector) (r : sql.Row),
  sql.selects (fold_left (fun s p => p s) (map predicate.of_condition cs) s) r
  = sql.selects s r && forallb (fun c => sql.holds c r) cs.
Proof.
  induction cs as [|c cs IH]; intros s r; cbn [map fold_left forallb].
  - now rewrite andb_true_r.
  - rewrite IH, andb_assoc. f_equal.
    unfold predicate.of_condition, sql.Where, sql.selects. cbn [sql.where_].
    destruct (sql.where_ s); cbn [sql.holds]; reflexivity.
Qed.

Lemma apply_conditions_where (cs : list sql.P) :
  forall (t : string) (c : sql.P),
  sql.where_ (fold_left (fun s p => p s) (map predicate.of_condition cs)
                (sql.Where (sql.Select t) c))
  = Some (fold_left sql.And cs c).
Proof.
  assert (H : forall s w, sql.where_ s = Some w ->
            sql.where_ (fold_left (fun s p => p s) (map predicate.of_condition cs) s)
            = Some (fold_left sql.And cs w)).
  { induction cs as [|c cs IH]; intros s w Hw; cbn [map fold_left]; [exact Hw|].
    apply IH. unfold predicate.of_condition, sql.Where. cbn [sql.where_].
    now rewrite Hw. }
  intros t c. now apply H.
Qed.

(** C7: with no predicate on the builder's mutation, the [Predicate] of the
    DeleteSpec is left unset and the statement built from it has no
    condition.  With one or more, it is set to the function
    that applies each of them to the selector in the order they were
    given; when they are conditions c1..cn, the selector it yields selects
    the rows the given selector selects and that satisfy every ci, and from
    a fresh selector the condition built is ((c1 AND c2) ... AND cn), which
    a row satisfies exactly when it satisfies every ci, in any order. *)
Theorem sqlExec_predicates (d : IntSIDDelete) :
  (predicates (mutation d) = [] ->
   sqlgraph.Predicate (deleteSpec d) = None /\
   store.statement (deleteSpec d) = sql.Select intsid_Table) /\
  (forall p ps, predicates (mutation d) = p :: ps ->
   sqlgraph.Predicate (deleteSpec d)
   = Some (fun selector => fold_left (fun s q => q s) (p :: ps) selector)) /\
  (forall c cs, predicates (mutation d) = map predicate.of_condition (c :: cs) ->
   exists pred, sqlgraph.Predicate (deleteSpec d) = Some pred /\
   (forall s r, sql.selects (pred s) r
                = sql.selects s r && forallb (fun x => sql.holds x r) (c :: cs)) /\
   (forall t, sql.where_ (pred (sql.Select t)) = Some (fold_left sql.And cs c)) /\
   (forall t r cs', Permutation (c :: cs) cs' ->
      sql.selects (pred (sql.Select t)) r = forallb (fun x => sql.holds x r) cs')).
Proof.
  split; [|split].
  - intros Hp. unfold store.statement, deleteSpec. now rewrite Hp.
  - intros p ps Hp. unfold deleteSpec. now rewrite Hp.
  - intros c cs Hp. unfold deleteSpec. rewrite Hp. cbn [map length Nat.ltb Nat.leb].
    eexists. split; [reflexivity|]. repeat split.
    + intros s r. apply (apply_conditions (c :: cs)).
    + intros t. cbn [fold_left predicate.of_condition].
      apply apply_conditions_where.
    + intros t r cs' Hperm.
      change (predicate.of_condition c :: map predicate.of_condition cs)
        with (map predicate.of_condition (c :: cs)).
      rewrite (apply_conditions (c :: cs)). cbn [sql.selects sql.Select sql.where_ andb].
      clear Hp. induction Hperm as [|x l l' _ IH|x y l|l l' l'' _ IH1 _ IH2];
        cbn [forallb]; try congruence.
      now rewrite !andb_assoc, (andb_comm (sql.holds y r)).
Qed.

(** C9: [IntSIDDeleteOne.ExecX] is [IntSIDDelete.ExecX] with the count
    dropped: it panics with an error exactly when [IntSIDDelete.Exec]
    returns that error, and when [Exec] returns 0 and nil it returns
    normally, while [IntSIDDeleteOne.Exec] returns a NotFoundError. *)
Theorem DeleteOne_ExecX_delegates (o : IntSIDDeleteOne) (ctx : Ctx) (w : World) :
  IntSIDDeleteOne_ExecX o ctx w =
    (match fst (IntSIDDelete_ExecX (isd_ o) ctx w) with
     | Returned _ => Returned tt
     | Panicked e => Panicked e
     end, snd (IntSIDDelete_ExecX (isd_ o) ctx w)) /\
  (forall e, fst (IntSIDDeleteOne_ExecX o ctx w) = Panicked e <->
             snd (fst (IntSIDDelete_Exec (isd_ o) ctx w)) = Some e) /\
  (forall s, IntSIDDelete_Exec (isd_ o) ctx w = ((0%Z, None), s) ->
   IntSIDDeleteOne_ExecX o ctx w = (Returned tt, s) /\
   IntSIDDeleteOne_Exec o ctx w = (Some (NotFoundError intsid_Label), s)).
Proof.
  unfold IntSIDDeleteOne_ExecX, IntSIDDeleteOne_Exec, IntSIDDelete_ExecX.
  destruct (IntSIDDelete_Exec (isd_ o) ctx w) as [[n [e|]] s];
    cbn [fst snd]; (split; [reflexivity|split]).
  - intros e0. split; intros H; inversion H; reflexivity.
  - intros s0 H. discriminate H.
  - intros e0. split; intros H; discriminate H.
  - intros s0 H. inversion H. subst. split; reflexivity.
Qed.

Lemma run_short_circuit_any (p : Prog) :
  short_circuits p ->
  forall (next next' : Mutator) (s : State), run next p s = run next' p s.
Proof.
  induction 1 as [v e|k Hk IH|w k Hk IH]; intros next next' s; cbn [run];
    [reflexivity|apply IH|apply IH].
Qed.

Lemma short_circuits_unreached (p : Prog) (hs : list Hook) :
  short_circuits p -> unreached hs p.
Proof.
  induction 1 as [v e|k Hk IH|w k Hk IH]; constructor; auto.
Qed.

(** A program that never gets to the terminal mutator leaves the captured
    variables and the builder alone. *)
Lemma run_unreached (hs : list Hook) (p : Prog) :
  unreached hs p ->
  forall s : State, snd (snd (run (fold_right wrap terminal hs) p s)) = snd s.
Proof.
  induction 1 as [hs v e|hs k Hk IH|hs w k Hk IH|h rest ctx m k Hh IHh Hk IHk];
    intros s; cbn [run].
  - reflexivity.
  - apply IH.
  - now rewrite IH.
  - cbn [fold_right]. unfold wrap at 1.
    pose proof (IHh s) as Hs.
    destruct (run (fold_right wrap terminal rest) (h ctx m) s) as [[v e] s'].
    rewrite IHk. exact Hs.
Qed.

(** The policy interceptor lets the call through when Allowed is bound to
    the context. *)
Lemma policy_hook_bypassed (P : Policy Mutation) (ctx : Ctx) (next : Mutator)
    (m : Mutation) (s : State) :
  wrap (policy_hook P) next (DecisionContext ctx Allowed) m s
  = next (DecisionContext ctx Allowed) m s.
Proof.
  unfold wrap, policy_hook. rewrite PolicyFacts.bound_decision_wins.
  cbn [phase op run]. now destruct (next _ m s) as [[v e] s'].
Qed.

(** C3: a decision bound to the context by DecisionContext is the terminal
    state of the evaluation and no rule is evaluated.  Bound Allowed makes
    the policy interceptor pass every call on to the next mutator, so
    [Execute] of a builder without hooks returns what the delete returns,
    whatever the rules are; the same rules, when they deny without the
    binding, make [Execute] return the denial and leave the store alone. *)
Theorem decision_context_bypass (P : Policy Mutation) (d : IntSIDDelete)
    (ctx : Ctx) (dec : Terminal) (w : World) :
  let allow := DecisionContext ctx Allowed in
  evaluate P (DecisionContext ctx dec) (IntSIDMut (mutation d))
    = {| phase := Finished dec; op := IntSIDMut (mutation d); evaluated := [] |} /\
  (forall next m s, wrap (policy_hook P) next allow m s = next allow m s) /\
  (hooks d = [] ->
   forall n w', IntSIDDelete_sqlExec d allow w = ((n, None), w') ->
   fst (Execute P d allow w) = (n, None) /\ fst (snd (Execute P d allow w)) = w') /\
  (hooks d = [] ->
   forall reason,
   phase (evaluate P ctx (IntSIDMut (mutation d))) = Finished (Denied reason) ->
   fst (Execute P d ctx w) = (0%Z, Some (PolicyDenied reason)) /\
   fst (snd (Execute P d ctx w)) = w).
Proof.
  intros allow. split; [apply PolicyFacts.bound_decision_wins|].
  split; [intros; apply policy_hook_bypassed|]. split.
  - intros Hh n w' Hx. unfold Execute. rewrite Hh.
    set (d' := {| hooks := [Some (policy_hook P)]; mutation := mutation d |}).
    rewrite (Exec_hooked d' (policy_hook P) [] allow w eq_refl).
    cbn [fold_right]. unfold allow. rewrite policy_hook_bypassed.
    fold allow. unfold terminal. cbn [fst snd frame0 isd hooks mutation d'].
    unfold IntSIDDelete_sqlExec in Hx |- *.
    change (deleteSpec {| hooks := [Some (policy_hook P)]; mutation := mutation d |})
      with (deleteSpec d).
    rewrite Hx. split; reflexivity.
  - intros Hh reason Hden. unfold Execute. rewrite Hh.
    set (d' := {| hooks := [Some (policy_hook P)]; mutation := mutation d |}).
    rewrite (Exec_hooked d' (policy_hook P) [] ctx w eq_refl).
    cbn [fold_right mutation d']. unfold wrap, policy_hook. rewrite Hden.
    split; reflexivity.
Qed.

End WithEnv.

End DeleteFacts.

(** ** The store for IntSID rows *)

Module StoreFacts.

Lemma filter_none (A : Type) (f : A -> bool) (l : list A) :
  (forall x, In x l -> f x = false) -> filter f l = [].
Proof.
  induction l as [|x l IH]; intros H; [reflexivity|].
  cbn [filter]. rewrite (H x (or_introl eq_refl)).
  apply IH. intros y Hy. apply H. now right.
Qed.

Lemma filter_all (A : Type) (f : A -> bool) (l : list A) :
  (forall x, In x l -> f x = true) -> filter f l = l.
Proof.
  induction l as [|x l IH]; intros H; [reflexivity|].
  cbn [filter]. rewrite (H x (or_introl eq_refl)). f_equal.
  apply IH. intros y Hy. apply H. now right.
Qed.

(** A delete whose statement selects no row of the table removes nothing
    and reports zero affected rows and no error. *)
Lemma delete_nodes_no_match (ctx : privacy.Ctx) (spec : sqlgraph.DeleteSpec) (db : store.DB) :
  (forall r, In r (store.rows db) -> sql.selects (store.statement spec) r = false) ->
  store.delete_nodes ctx spec db =
  ((0%Z, None),
   {| store.rows := store.rows db;
      store.statements := store.statements db ++ [store.statement spec] |}).
Proof.
  intros Hno. unfold store.delete_nodes.
  rewrite (filter_none _ _ _ Hno), filter_all; [reflexivity|].
  intros r Hr. now rewrite (Hno r Hr).
Qed.

(** On this store: when no row of the table satisfies the predicates of a
    builder without hooks, [Exec] returns 0 and nil and no row is removed,
    and [IntSIDDeleteOne.Exec] returns a NotFoundError. *)
Lemma Exec_zero_rows_on_store (d : @ent.IntSIDDelete store.env) (ctx : privacy.Ctx)
    (db : store.DB) :
  ent.hooks d = [] ->
  (forall r, In r (store.rows db) ->
     sql.selects (store.statement (@ent.deleteSpec store.env d)) r = false) ->
  fst (@ent.IntSIDDelete_Exec store.env d ctx db) = (0%Z, None) /\
  store.rows (fst (snd (@ent.IntSIDDelete_Exec store.env d ctx db))) = store.rows db /\
  fst (@ent.IntSIDDeleteOne_Exec store.env {| ent.isd_ := d |} ctx db)
    = Some (NotFoundError "int_sid").
Proof.
  intros Hh Hno.
  pose proof (delete_nodes_no_match ctx (@ent.deleteSpec store.env d) db Hno) as Hd.
  assert (Hx : @ent.IntSIDDelete_Exec store.env d ctx db =
               ((0%Z, None),
                ({| store.rows := store.rows db;
                    store.statements :=
                      store.statements db ++ [store.statement (@ent.deleteSpec store.env d)] |},
                 d))).
  { rewrite (@DeleteFacts.Exec_no_hooks store.env d ctx db Hh).
    unfold ent.IntSIDDelete_sqlExec. cbn [ent.DeleteNodes store.env].
    now rewrite Hd. }
  unfold ent.IntSIDDeleteOne_Exec. cbn [ent.isd_]. rewrite Hx.
  repeat split.
Qed.

End StoreFacts.

(** ** The join table tweet_tags *)

Module TweetTagFacts.

Import tweettag.

Lemma ValidColumn_in_spec (cols : list string) (c : string) :
  ValidColumn_in cols c = true <-> In c cols.
Proof.
  induction cols as [|x cols IH]; cbn [ValidColumn_in In].
  - split; [discriminate|tauto].
  - destruct (String.eqb_spec c x) as [->|Hne].
    + split; auto.
    + rewrite IH. split; [auto|]. intros [Heq|H]; [congruence|exact H].
Qed.

Lemma same_pair_spec (p : Z * Z) (r : Row) :
  same_pair p r = true <-> pair_of r = p.
Proof.
  destruct p as [a b]. unfold same_pair, pair_of. cbn [fst snd].
  rewrite andb_true_iff, !Z.eqb_eq. split.
  - intros [-> ->]. reflexivity.
  - intros H. inversion H. auto.
Qed.

Lemma has_pair_spec (p : Z * Z) (t : list Row) :
  existsb (same_pair p) t = true <-> In p (map pair_of t).
Proof.
  rewrite existsb_exists, in_map_iff. split.
  - intros (r & Hin & Hs). exists r. split; [now apply same_pair_spec|exact Hin].
  - intros (r & Hp & Hin). exists r. split; [exact Hin|now apply same_pair_spec].
Qed.

(** What [insert] does to a table that satisfies the constraint. *)
Lemma insert_unique (r : Row) (t : list Row) :
  unique_pairs t ->
  match insert r t with
  | inl _ => In (pair_of r) (map pair_of t)
  | inr t' => t' = t ++ [r] /\ unique_pairs t'
  end.
Proof.
  intros Hu. unfold insert.
  destruct (existsb (same_pair (pair_of r)) t) eqn:Hx.
  - now apply has_pair_spec.
  - split; [reflexivity|]. unfold unique_pairs. rewrite map_app. cbn [map].
    apply NoDup_app; [exact Hu|repeat constructor; auto|].
    intros p Hin [<-|[]].
    apply has_pair_spec in Hin. congruence.
Qed.

Lemma add_edge_unique (r : Row) (t : list Row) :
  unique_pairs t -> unique_pairs (add_edge r t).
Proof.
  intros Hu. unfold add_edge. pose proof (insert_unique r t Hu) as H.
  destruct (insert r t); [exact Hu|tauto].
Qed.

Lemma remove_edge_unique (p : Z * Z) (t : list Row) :
  unique_pairs t -> unique_pairs (remove_edge p t).
Proof.
  unfold unique_pairs, remove_edge. induction t as [|r t IH]; intros Hu; [constructor|].
  cbn [map filter] in *. inversion Hu as [|x l Hnin Hnd]; subst.
  destruct (negb (same_pair p r)); cbn [map]; [|auto].
  constructor; [|auto]. intros Hin. apply Hnin.
  apply in_map_iff in Hin. destruct Hin as (r' & Hp & Hin).
  apply filter_In in Hin. apply in_map_iff. exists r'. tauto.
Qed.

Lemma apply_all_unique (ops : list EdgeOp) :
  forall t, unique_pairs t -> unique_pairs (apply_all ops t).
Proof.
  unfold apply_all. induction ops as [|o ops IH]; intros t Hu; cbn [fold_left]; [exact Hu|].
  apply IH. destruct o as [r|tweet tag]; cbn [apply].
  - now apply add_edge_unique.
  - now apply remove_edge_unique.
Qed.

(** C8: the table of the tweet-tag edge holds both edges, its columns are
    the two foreign-key columns (tag_id, tweet_id), which differ, and the
    fields of the edge itself (id, added_at); and the uniqueness constraint
    on the (tweet_id, tag_id) pair holds after any sequence of edge
    additions and removals from the empty table: an insert of a pair that is
    present is refused, an addition of it is ignored, and a removal deletes
    exactly the rows of that pair. *)
Theorem join_table_columns_and_uniqueness :
  (TagTable = Table /\ TweetTable = Table) /\
  (filter is_edge_column Columns = [TagColumn; TweetColumn] /\ TagColumn <> TweetColumn) /\
  filter (fun c => negb (is_edge_column c)) Columns = [FieldID; FieldAddedAt] /\
  (forall c, ValidColumn c = true <-> In c Columns) /\
  (forall ops, unique_pairs (apply_all ops [])) /\
  (forall t r, unique_pairs t ->
     match insert r t with
     | inl _ => In (pair_of r) (map pair_of t)
     | inr t' => t' = t ++ [r] /\ unique_pairs t'
     end) /\
  (forall t r, add_edge r (add_edge r t) = add_edge r t) /\
  (forall t p r, In r (remove_edge p t) <-> In r t /\ pair_of r <> p).
Proof.
  split; [split; reflexivity|]. split; [split; [reflexivity|discriminate]|].
  split; [reflexivity|]. split; [intros c; apply ValidColumn_in_spec|].
  split; [intros ops; apply apply_all_unique; constructor|].
  split; [intros t r; apply insert_unique|]. split.
  - intros t r. unfold add_edge at 2. unfold insert.
    destruct (existsb (same_pair (pair_of r)) t) eqn:Hx.
    + unfold add_edge, insert. now rewrite Hx.
    + unfold add_edge, insert. rewrite existsb_app, Hx. cbn [existsb orb].
      replace (same_pair (pair_of r) r) with true
        by (symmetry; now apply same_pair_spec).
      reflexivity.
  - intros t p r. unfold remove_edge. rewrite filter_In, negb_true_iff.
    split; intros [Hin Hs]; (split; [exact Hin|]).
    + intros Hp. apply same_pair_spec in Hp. congruence.
    + destruct (same_pair p r) eqn:Hx; [|reflexivity].
      apply same_pair_spec in Hx. contradiction.
Qed.

End TweetTagFacts.

(** ** The theorems at concrete rules, hooks and stores *)

Module Witnesses.

Import privacy ent samples.

(** Rule 1 of three allows: Allowed, rules 0 and 1 evaluated, rule 2 (which
    would fail) never; likewise for a denial and an error; a filter rule
    that skips hands the narrowed mutation to rule 1. *)
Lemma rule_transition_witness :
  (phase (evaluate allow_second background (IntSIDMut (where_id 5))) = Finished Allowed /\
   evaluated (evaluate allow_second background (IntSIDMut (where_id 5))) = [0; 1] /\
   forall j, 1 < j ->
     ~ In j (evaluated (evaluate allow_second background (IntSIDMut (where_id 5))))) /\
  (phase (evaluate deny_second background (IntSIDMut (where_id 5)))
     = Finished (Denied "not an admin") /\
   evaluated (evaluate deny_second background (IntSIDMut (where_id 5))) = [0; 1] /\
   forall j, 1 < j ->
     ~ In j (evaluated (evaluate deny_second background (IntSIDMut (where_id 5))))) /\
  (phase (evaluate error_first background (IntSIDMut (where_id 5)))
     = Finished (Denied "viewer lookup failed") /\
   evaluated (evaluate error_first background (IntSIDMut (where_id 5))) = [0] /\
   forall j, 0 < j ->
     ~ In j (evaluated (evaluate error_first background (IntSIDMut (where_id 5))))) /\
  (phase (step skip_first background (init background (IntSIDMut (where_id 5)))) = Pending 1 /\
   op (step skip_first background (init background (IntSIDMut (where_id 5))))
     = IntSIDMut (narrowed (sql.EQ "tenant_id" 7) (where_id 5)) /\
   evaluated (step skip_first background (init background (IntSIDMut (where_id 5)))) = [0]).
Proof.
  split; [|split; [|split]].
  - exact (PolicyFacts.rule_transition Mutation allow_second background
             (IntSIDMut (where_id 5)) 1 1 allow_rule eq_refl eq_refl).
  - exact (PolicyFacts.rule_transition Mutation deny_second background
             (IntSIDMut (where_id 5)) 1 1 (deny_rule "not an admin") eq_refl eq_refl).
  - exact (PolicyFacts.rule_transition Mutation error_first background
             (IntSIDMut (where_id 5)) 0 0 (error_rule "viewer lookup failed")
             eq_refl eq_refl).
  - exact (PolicyFacts.rule_transition Mutation skip_first background
             (IntSIDMut (where_id 5)) 0 0 (filter_rule (sql.EQ "tenant_id" 7))
             eq_refl eq_refl).
Defined.

Lemma all_skip_rules (dflt : Terminal) (j : nat) (r : Rule Mutation) :
  nth_error (rules (all_skip dflt)) j = Some r ->
  skips (fst (r background
                (op (iterate (all_skip dflt) background j
                       (init background (IntSIDMut (where_id 5))))))) = true.
Proof.
  destruct j as [|[|[|j]]]; cbn [all_skip rules nth_error]; intros H;
    try (inversion H; subst; reflexivity).
  destruct j; discriminate H.
Defined.

(** Three skipping rules end in the configured default, Denied or Allowed. *)
Lemma all_skip_yields_default_witness :
  (phase (evaluate (all_skip (Denied "secure by default")) background (IntSIDMut (where_id 5)))
     = Finished (Denied "secure by default") /\
   evaluated (evaluate (all_skip (Denied "secure by default")) background (IntSIDMut (where_id 5)))
     = [0; 1; 2]) /\
  (phase (evaluate (all_skip Allowed) background (IntSIDMut (where_id 5))) = Finished Allowed /\
   evaluated (evaluate (all_skip Allowed) background (IntSIDMut (where_id 5))) = [0; 1; 2]).
Proof.
  split.
  - exact (PolicyFacts.all_skip_yields_default Mutation (all_skip (Denied "secure by default"))
             background (IntSIDMut (where_id 5)) eq_refl
             (all_skip_rules (Denied "secure by default"))).
  - exact (PolicyFacts.all_skip_yields_default Mutation (all_skip Allowed)
             background (IntSIDMut (where_id 5)) eq_refl (all_skip_rules Allowed)).
Defined.

(** A policy that denies every mutation: the delete is denied and the store
    untouched; with Allowed bound to the context one row is deleted. *)
Lemma decision_context_bypass_witness :
  (fst (@Execute store.env deny_all (delete_id 5) (DecisionContext background Allowed) db0)
     = (1%Z, None) /\
   store.rows (fst (snd (@Execute store.env deny_all (delete_id 5)
                           (DecisionContext background Allowed) db0)))
     = [[("id"%string, 6%Z)]]) /\
  (fst (@Execute store.env deny_all (delete_id 5) background db0)
     = (0%Z, Some (PolicyDenied "mutations are denied")) /\
   fst (snd (@Execute store.env deny_all (delete_id 5) background db0)) = db0).
Proof.
  destruct (@DeleteFacts.decision_context_bypass store.env deny_all (delete_id 5)
              background Allowed db0) as (_ & _ & Hallow & Hdeny).
  split.
  - destruct (Hallow eq_refl 1%Z
                {| store.rows := [[("id"%string, 6%Z)]];
                   store.statements :=
                     [{| sql.table := "int_sids"; sql.where_ := Some (sql.EQ "id" 5) |}] |}
                eq_refl) as [H1 H2].
    split; [exact H1|]. rewrite H2. reflexivity.
  - exact (Hdeny eq_refl "mutations are denied"%string eq_refl).
Defined.

(** Two hooks h1, h2: the value comes back as h1(h2(sql)) and the statement
    carries the builder's condition, then h1's, then h2's. *)
Lemma Exec_hook_chain_order_witness :
  let h1 := tag "h1" (sql.GT "id" 0) in
  let h2 := tag "h2" (sql.GT "id" 1) in
  let d := hooked [Some h1; Some h2] 5 in
  fst (run (fold_right wrap terminal [h2]) (h1 background (IntSIDMut (where_id 5)))
         (db0, frame0 d)) = (VStr "h1(h2(sql))", None) /\
  fst (@IntSIDDelete_Exec store.env d background db0) = (1%Z, None) /\
  store.statements (fst (snd (@IntSIDDelete_Exec store.env d background db0)))
    = [{| sql.table := "int_sids";
          sql.where_ := Some (sql.And (sql.And (sql.EQ "id" 5) (sql.GT "id" 0))
                                      (sql.GT "id" 1)) |}].
Proof.
  intros h1 h2 d.
  destruct (@DeleteFacts.Exec_hook_chain_order store.env h1 [h2] (where_id 5) background db0)
    as (_ & _ & Hx).
  change (@IntSIDDelete_Exec store.env d background db0)
    with (@IntSIDDelete_Exec store.env
            {| hooks := map Some [h1; h2]; mutation := where_id 5 |} background db0).
  rewrite Hx. repeat split.
Defined.

(** A nil hook after a hook: the error, and the store untouched. *)
Lemma Exec_uninitialized_hook_witness :
  @IntSIDDelete_Exec store.env (hooked [Some (short (VInt 42)); None] 5) background db0
  = ((0%Z, Some uninitialized_hook), (db0, hooked [Some (short (VInt 42)); None] 5)).
Proof.
  exact (proj2 (@DeleteFacts.Exec_uninitialized_hook store.env
                  (hooked [Some (short (VInt 42)); None] 5) background db0 1 eq_refl)).
Defined.

(** No row has id 9: [Exec] returns 0 and nil, [IntSIDDeleteOne.Exec] a
    NotFoundError; one row has id 5: [IntSIDDeleteOne.Exec] returns nil. *)
Lemma DeleteOne_Exec_not_found_witness :
  fst (@IntSIDDelete_Exec store.env (delete_id 9) background db0) = (0%Z, None) /\
  fst (@IntSIDDeleteOne_Exec store.env {| isd_ := delete_id 9 |} background db0)
    = Some (NotFoundError "int_sid") /\
  fst (@IntSIDDeleteOne_Exec store.env {| isd_ := delete_id 5 |} background db0) = None.
Proof.
  destruct (@DeleteFacts.DeleteOne_Exec_not_found store.env (delete_id 9) background db0)
    as (H0 & Hnf & _).
  destruct (@DeleteFacts.DeleteOne_Exec_not_found store.env (delete_id 5) background db0)
    as (_ & _ & Hok).
  pose proof (H0 eq_refl _ eq_refl) as Hx.
  split; [now rewrite Hx|]. split.
  - now rewrite (Hnf _ Hx).
  - now rewrite (Hok 1%Z _ ltac:(lia) eq_refl).
Defined.

(** No predicate: unset; two conditions: their conjunction, in order. *)
Lemma sqlExec_predicates_witness :
  sqlgraph.Predicate (@deleteSpec store.env delete_all) = None /\
  exists pred,
    sqlgraph.Predicate
      (@deleteSpec store.env
         (IntSIDDelete_Where delete_all
            (map predicate.of_condition [sql.EQ "id" 5; sql.GT "id" 3]))) = Some pred /\
    sql.where_ (pred (sql.Select "int_sids"))
      = Some (sql.And (sql.EQ "id" 5) (sql.GT "id" 3)) /\
    forall r, sql.selects (pred (sql.Select "int_sids")) r
              = forallb (fun x => sql.holds x r) [sql.GT "id" 3; sql.EQ "id" 5].
Proof.
  split.
  - exact (proj1 (proj1 (@DeleteFacts.sqlExec_predicates store.env delete_all) eq_refl)).
  - destruct (proj2 (proj2 (@DeleteFacts.sqlExec_predicates store.env
                (IntSIDDelete_Where delete_all
                   (map predicate.of_condition [sql.EQ "id" 5; sql.GT "id" 3]))))
                (sql.EQ "id" 5) [sql.GT "id" 3] eq_refl)
      as (pred & Hp & _ & Hw & Hperm).
    exists pred. split; [exact Hp|]. split; [exact (Hw _)|].
    intros r. apply Hperm. apply perm_swap.
Defined.

(** Zero rows deleted: [IntSIDDeleteOne.ExecX] returns, [Exec] reports
    NotFound. *)
Lemma DeleteOne_ExecX_delegates_witness :
  fst (@IntSIDDeleteOne_ExecX store.env {| isd_ := delete_id 9 |} background db0)
    = Returned tt /\
  fst (@IntSIDDeleteOne_Exec store.env {| isd_ := delete_id 9 |} background db0)
    = Some (NotFoundError "int_sid").
Proof.
  destruct (proj2 (proj2 (@DeleteFacts.DeleteOne_ExecX_delegates store.env
              {| isd_ := delete_id 9 |} background db0)) _ eq_refl) as [H1 H2].
  rewrite H1, H2. split; reflexivity.
Defined.

(** The same pair added twice, another added and removed: one row. *)
Lemma join_table_columns_and_uniqueness_witness :
  tweettag.unique_pairs (tweettag.apply_all join0 []) /\
  length (tweettag.apply_all join0 []) = 1.
Proof.
  destruct TweetTagFacts.join_table_columns_and_uniqueness as (_ & _ & _ & _ & Hu & _).
  split; [exact (Hu join0)|reflexivity].
Defined.

End Witnesses.

(** ** More on the delete builders: what hooks can and cannot do *)

Module HookFacts.

Import privacy ent hook.

Section WithEnv.

Context {E : Env}.

Lemma pass_transparent : transparent pass.
Proof.
  intros next ctx m s. unfold wrap, pass. cbn [run].
  now destruct (next ctx m s) as [[v e] s'].
Qed.

Lemma chain_transparent (hs : list Hook) (mut : Mutator) :
  Forall transparent hs ->
  forall ctx m s, fold_right wrap mut hs ctx m s = mut ctx m s.
Proof.
  induction 1 as [|h hs Hh _ IH]; intros ctx m s; cbn [fold_right]; [reflexivity|].
  rewrite Hh. apply IH.
Qed.

Lemma wrap_replace (m' : Mutation) (next : Mutator) ctx m s :
  wrap (replace m') next ctx m s = next ctx m' s.
Proof.
  unfold wrap, replace. cbn [run]. now destruct (next ctx m' s) as [[v e] s'].
Qed.

(** The spec of [sqlExec] depends on the builder's mutation only. *)
Lemma sqlExec_mutation (d d' : IntSIDDelete) ctx w :
  mutation d = mutation d' ->
  IntSIDDelete_sqlExec d ctx w = IntSIDDelete_sqlExec d' ctx w.
Proof.
  intros H. unfold IntSIDDelete_sqlExec, deleteSpec. now rewrite H.
Qed.

Lemma terminal_eq (m' : IntSIDMutation) (d : IntSIDDelete) ctx w (fr : Frame) :
  mutation d = m' ->
  terminal ctx (IntSIDMut m') (w, fr) =
  ((VInt (fst (fst (IntSIDDelete_sqlExec d ctx w))), snd (fst (IntSIDDelete_sqlExec d ctx w))),
   (snd (IntSIDDelete_sqlExec d ctx w),
    {| affected := fst (fst (IntSIDDelete_sqlExec d ctx w));
       err := snd (fst (IntSIDDelete_sqlExec d ctx w));
       isd := {| hooks := hooks (isd fr); mutation := mark_done m' |} |})).
Proof.
  intros Hm. unfold terminal. cbn [fst snd].
  rewrite (sqlExec_mutation {| hooks := hooks (isd fr); mutation := m' |} d ctx w
             (eq_sym Hm)).
  now destruct (IntSIDDelete_sqlExec d ctx w) as [[n e] w'].
Qed.

(** The terminal mutator on an IntSID mutation, from the variables as
    declared. *)
Lemma terminal_runs (d : IntSIDDelete) (m' : IntSIDMutation) ctx w :
  Exec_return (terminal ctx (IntSIDMut m') (w, frame0 d)) =
  (through_chain (fst (IntSIDDelete_sqlExec {| hooks := hooks d; mutation := m' |} ctx w)),
   (snd (IntSIDDelete_sqlExec {| hooks := hooks d; mutation := m' |} ctx w),
    {| hooks := hooks d; mutation := mark_done m' |})).
Proof.
  unfold terminal. cbn [fst snd frame0 isd].
  destruct (IntSIDDelete_sqlExec {| hooks := hooks d; mutation := m' |} ctx w)
    as [[n [e|]] w']; reflexivity.
Qed.

(** X1: with hooks that only pass the call on, [Exec] runs [sqlExec] once:
    it returns its count and nil, or 0 with its error, and marks the
    builder's mutation done; without hooks it returns the pair of
    [sqlExec] as it is, count and error together, and leaves the builder
    as it was. *)
Theorem Exec_transparent_hooks (h : Hook) (hs : list Hook) (m : IntSIDMutation)
    (ctx : Ctx) (w : World) :
  Forall transparent (h :: hs) ->
  let d := {| hooks := map Some (h :: hs); mutation := m |} in
  let d0 := {| hooks := []; mutation := m |} in
  IntSIDDelete_Exec d ctx w =
    (through_chain (fst (IntSIDDelete_sqlExec d ctx w)),
     (snd (IntSIDDelete_sqlExec d ctx w),
      {| hooks := hooks d; mutation := mark_done m |})) /\
  IntSIDDelete_Exec d0 ctx w =
    (fst (IntSIDDelete_sqlExec d ctx w), (snd (IntSIDDelete_sqlExec d ctx w), d0)).
Proof.
  intros Ht d d0. split.
  - rewrite (DeleteFacts.Exec_hooked d h hs ctx w eq_refl).
    rewrite (chain_transparent (h :: hs) terminal Ht).
    apply (terminal_runs d m).
  - rewrite (DeleteFacts.Exec_no_hooks d0 ctx w eq_refl).
    now rewrite (sqlExec_mutation d0 d ctx w eq_refl).
Qed.

(** X2: when a hook hands the next mutator a mutation of another type, and
    the hooks after it pass the call on, [Exec] returns 0 and the
    unexpected-mutation error naming that type; [sqlExec] is not run and
    the store and the builder are as before. *)
Theorem Exec_unexpected_mutation (typ : string) (hs : list Hook) (m : IntSIDMutation)
    (ctx : Ctx) (w : World) :
  Forall transparent hs ->
  let d := {| hooks := map Some (replace (OtherMut typ) :: hs); mutation := m |} in
  IntSIDDelete_Exec d ctx w = ((0%Z, Some (unexpected_mutation typ)), (w, d)).
Proof.
  intros Ht d.
  rewrite (DeleteFacts.Exec_hooked d (replace (OtherMut typ)) hs ctx w eq_refl).
  cbn [fold_right]. rewrite wrap_replace, (chain_transparent hs terminal Ht).
  reflexivity.
Qed.

Lemma narrow_chain (cs : list sql.P) (mut : Mutator) :
  forall (mu : IntSIDMutation) ctx s,
  fold_right wrap mut (map narrow cs) ctx (IntSIDMut mu) s
  = mut ctx (IntSIDMut (fold_left (fun x c => samples.narrowed c x) cs mu)) s.
Proof.
  induction cs as [|c cs IH]; intros mu ctx s; cbn [map fold_right fold_left]; [reflexivity|].
  unfold wrap at 1. unfold narrow. cbn [run]. rewrite IH.
  now destruct (mut ctx _ s) as [[v e] s'].
Qed.

Lemma narrowed_predicates (cs : list sql.P) :
  forall mu : IntSIDMutation,
  predicates (fold_left (fun x c => samples.narrowed c x) cs mu)
  = predicates mu ++ map predicate.of_condition cs.
Proof.
  induction cs as [|c cs IH]; intros mu; cbn [fold_left map].
  - now rewrite app_nil_r.
  - rewrite IH. unfold samples.narrowed. cbn [predicates]. now rewrite <- app_assoc.
Qed.

(** X3: hooks that each add a condition to the mutation and call on: the
    delete runs once, on the builder's predicates followed by the hooks'
    conditions in the order the hooks were registered, and the builder is
    left with that mutation, marked done. *)
Theorem Exec_narrowing_hooks (c : sql.P) (cs : list sql.P) (m : IntSIDMutation)
    (ctx : Ctx) (w : World) :
  let d := {| hooks := map Some (map narrow (c :: cs)); mutation := m |} in
  let m' := fold_left (fun x c => samples.narrowed c x) (c :: cs) m in
  predicates m' = predicates m ++ map predicate.of_condition (c :: cs) /\
  IntSIDDelete_Exec d ctx w =
    (through_chain (fst (IntSIDDelete_sqlExec {| hooks := hooks d; mutation := m' |} ctx w)),
     (snd (IntSIDDelete_sqlExec {| hooks := hooks d; mutation := m' |} ctx w),
      {| hooks := hooks d; mutation := mark_done m' |})).
Proof.
  intros d m'. split; [apply narrowed_predicates|].
  rewrite (DeleteFacts.Exec_hooked d (narrow c) (map narrow cs) ctx w eq_refl).
  change (narrow c :: map narrow cs) with (map narrow (c :: cs)).
  rewrite narrow_chain. apply (terminal_runs d m').
Qed.


(** X5: nothing keeps a hook from calling the next mutator twice: the
    delete then runs twice, the second time on the store the first left,
    and [Exec] reports the second run only. *)
Theorem Exec_next_twice (hs : list Hook) (m : IntSIDMutation) (ctx : Ctx) (w : World) :
  Forall transparent hs ->
  let d := {| hooks := map Some (twice :: hs); mutation := m |} in
  let w1 := snd (IntSIDDelete_sqlExec d ctx w) in
  IntSIDDelete_Exec d ctx w =
    (through_chain (fst (IntSIDDelete_sqlExec d ctx w1)),
     (snd (IntSIDDelete_sqlExec d ctx w1),
      {| hooks := hooks d; mutation := mark_done m |})).
Proof.
  intros Ht d w1.
  rewrite (DeleteFacts.Exec_hooked d twice hs ctx w eq_refl).
  change (mutation d) with m. cbn [fold_right]. unfold wrap at 1, twice. cbn [run].
  rewrite (chain_transparent hs terminal Ht).
  rewrite (terminal_eq m d ctx w (frame0 d) eq_refl).
  rewrite (chain_transparent hs terminal Ht).
  fold w1. rewrite (terminal_eq m d ctx w1 _ eq_refl).
  cbn [run Exec_return isd hooks frame0].
  now destruct (IntSIDDelete_sqlExec d ctx w1) as [[n2 [e2|]] w2].
Qed.

(** X13: an error a hook returns after the delete has run does not undo
    the delete: [Exec] returns 0 and the hook's error, whatever [sqlExec]
    returned, and the store is as [sqlExec] left it. *)
Theorem Exec_error_after_delete (e : error) (hs : list Hook) (m : IntSIDMutation)
    (ctx : Ctx) (w : World) :
  Forall transparent hs ->
  let d := {| hooks := map Some (fail_after e :: hs); mutation := m |} in
  IntSIDDelete_Exec d ctx w =
    ((0%Z, Some e),
     (snd (IntSIDDelete_sqlExec d ctx w),
      {| hooks := hooks d; mutation := mark_done m |})).
Proof.
  intros Ht d.
  rewrite (DeleteFacts.Exec_hooked d (fail_after e) hs ctx w eq_refl).
  change (mutation d) with m. cbn [fold_right]. unfold wrap at 1, fail_after. cbn [run].
  rewrite (chain_transparent hs terminal Ht).
  rewrite (terminal_eq m d ctx w (frame0 d) eq_refl).
  reflexivity.
Qed.

(** X6: an uninitialized hook is reported as such by every entry point:
    [ExecX] and [IntSIDDeleteOne.ExecX] panic with the error,
    [IntSIDDeleteOne.Exec] returns it, not a NotFoundError, although the
    count is 0, and the store and the builder are as before. *)
Theorem nil_hook_everywhere (d : IntSIDDelete) (ctx : Ctx) (w : World) (i : nat) :
  nth_error (hooks d) i = Some None ->
  IntSIDDelete_ExecX d ctx w = (Panicked uninitialized_hook, (w, d)) /\
  IntSIDDeleteOne_Exec {| isd_ := d |} ctx w = (Some uninitialized_hook, (w, d)) /\
  IntSIDDeleteOne_ExecX {| isd_ := d |} ctx w = (Panicked uninitialized_hook, (w, d)).
Proof.
  intros Hi.
  assert (Hlt : i < length (hooks d)) by (apply nth_error_Some; congruence).
  assert (Hx : IntSIDDelete_Exec d ctx w = ((0%Z, Some uninitialized_hook), (w, d))).
  { unfold IntSIDDelete_Exec.
    rewrite (DeleteFacts.chain_nil_hook (hooks d) i Hi (length (hooks d)) terminal Hlt).
    destruct (length (hooks d)); [lia|reflexivity]. }
  unfold IntSIDDeleteOne_ExecX, IntSIDDeleteOne_Exec, IntSIDDelete_ExecX. cbn [isd_].
  rewrite Hx. repeat split.
Qed.

(** A chain that gets built has no nil hook. *)
Lemma chain_built (hs : list (option Hook)) (mut mut' : Mutator) :
  chain hs (length hs) mut = inr mut' ->
  exists hs', hs = map Some hs'.
Proof.
  intros Hc.
  assert (Hall : forall i, nth_error hs i <> Some None).
  { intros i Hi.
    assert (Hlt : i < length hs) by (apply nth_error_Some; congruence).
    rewrite (DeleteFacts.chain_nil_hook hs i Hi (length hs) mut Hlt) in Hc. discriminate. }
  clear Hc. induction hs as [|[h|] hs IH].
  - now exists [].
  - destruct IH as [hs' ->]; [intros i; apply (Hall (S i))|]. now exists (h :: hs').
  - now destruct (Hall 0).
Qed.

(** X7: whatever the hooks are, a count that [Exec] returns is 0 or comes,
    with the error returned beside it, from a call of [sqlExec]: hooks
    cannot make up a number of deleted rows. *)
Theorem Exec_count_from_sqlExec (d : IntSIDDelete) (ctx : Ctx) (w : World) :
  fst (fst (IntSIDDelete_Exec d ctx w)) = 0%Z \/
  exists d' ctx' w', fst (IntSIDDelete_sqlExec d' ctx' w') = fst (IntSIDDelete_Exec d ctx w).
Proof.
  destruct (hooks d) as [|oh ohs] eqn:Hh.
  - right. exists d, ctx, w. now rewrite (DeleteFacts.Exec_no_hooks d ctx w Hh).
  - destruct (chain (hooks d) (length (hooks d)) terminal) as [e|mut] eqn:Hc.
    + left. unfold IntSIDDelete_Exec. rewrite Hc, Hh. reflexivity.
    + destruct (chain_built _ _ _ Hc) as [hs' Hs'].
      destruct hs' as [|h rest]; [rewrite Hh in Hs'; discriminate|].
      rewrite (DeleteFacts.Exec_hooked d h rest ctx w Hs').
      pose proof (DeleteFacts.run_captured rest (h ctx (IntSIDMut (mutation d)))
                    (w, frame0 d) (or_introl eq_refl)) as Hcap.
      change (run (fold_right wrap terminal rest) (h ctx (IntSIDMut (mutation d))) (w, frame0 d))
        with (fold_right wrap terminal (h :: rest) ctx (IntSIDMut (mutation d)) (w, frame0 d))
        in Hcap.
      destruct (fold_right wrap terminal (h :: rest) ctx (IntSIDMut (mutation d)) (w, frame0 d))
        as [[v [e|]] [w' fr]]; cbn [Exec_return fst snd] in *; [now left|].
      destruct Hcap as [H0|Hsql]; [left; now inversion H0|right; exact Hsql].
Qed.

(** [Exec] with hooks, none nil, is the chain run on the builder's mutation
    with the captured variables as declared. *)
Lemma Exec_chain_run (hs : list Hook) (d : IntSIDDelete) ctx w :
  hs <> [] ->
  hooks d = map Some hs ->
  IntSIDDelete_Exec d ctx w =
  Exec_return (fold_right wrap terminal hs ctx (IntSIDMut (mutation d)) (w, frame0 d)).
Proof.
  destruct hs as [|h rest]; [congruence|]. intros _ Hh.
  apply (DeleteFacts.Exec_hooked d h rest ctx w Hh).
Qed.

(** Hooks that pass the call on, in front of a chain, have no part in what
    the chain does. *)
Lemma chain_transparent_prefix (pre hs : list Hook) (mut : Mutator) :
  Forall transparent pre ->
  forall ctx m s,
  fold_right wrap mut (pre ++ hs) ctx m s = fold_right wrap mut hs ctx m s.
Proof.
  intros Hpre ctx m s. rewrite fold_right_app.
  apply (chain_transparent pre _ Hpre).
Qed.

(** C10: with hooks h1..hn, none nil, the value the chain returns has no
    part in what [Exec] returns: a non-nil error of the chain is returned
    with 0, and otherwise the captured variables are, which hold 0 and nil
    or the result of a call of [sqlExec].  When the chain returns without
    getting to the terminal mutator, because h1 or a hook it calls on to
    returns without calling the next mutator, [Exec] returns 0 with the
    error the chain returned: 0 and nil after a non-error return, whatever
    the value.  When it is h1 that does not call on, the rest of the chain
    has no part in the outcome.

    In terms of the hooks alone: a hook that returns a value v and an error
    e without calling the next mutator, reached through hooks that pass the
    call on, makes [Exec] return 0 and e, nil or not, whatever v is and
    whatever hooks come after it, and [sqlExec] is not run: the store and
    the builder are as before.  A hook that calls the next mutator and
    returns a value and an error of its own making, f and g of what it got
    back, with hooks around it that pass the call on, makes [Exec] run
    [sqlExec] once and return 0 and the error when g gives one, and
    otherwise the count and the error of [sqlExec] itself: f has no part
    in the result. *)
Theorem Exec_discards_chain_value (h1 : Hook) (rest : list Hook) (m : IntSIDMutation)
    (ctx : Ctx) (w : World) :
  let d := {| hooks := map Some (h1 :: rest); mutation := m |} in
  let out := fold_right wrap terminal (h1 :: rest) ctx (IntSIDMut m) (w, frame0 d) in
  fst (IntSIDDelete_Exec d ctx w) =
    match snd (fst out) with
    | Some e => (0%Z, Some e)
    | None => (affected (snd (snd out)), err (snd (snd out)))
    end /\
  captured (snd (snd out)) /\
  (unreached rest (h1 ctx (IntSIDMut m)) ->
   fst (IntSIDDelete_Exec d ctx w) = (0%Z, snd (fst out))) /\
  (short_circuits (h1 ctx (IntSIDMut m)) ->
   forall next : Mutator, run next (h1 ctx (IntSIDMut m)) (w, frame0 d) = out) /\
  (forall (pre post : list Hook) (v : Value) (e : option error),
   Forall transparent pre ->
   let d1 := {| hooks := map Some (pre ++ answer v e :: post); mutation := m |} in
   IntSIDDelete_Exec d1 ctx w = ((0%Z, e), (w, d1))) /\
  (forall (pre post : list Hook)
          (f : Value -> option error -> Value)
          (g : Value -> option error -> option error),
   Forall transparent pre -> Forall transparent post ->
   let d2 := {| hooks := map Some (pre ++ after f g :: post); mutation := m |} in
   let r := IntSIDDelete_sqlExec d2 ctx w in
   IntSIDDelete_Exec d2 ctx w =
     (match g (VInt (fst (fst r))) (snd (fst r)) with
      | Some e => (0%Z, Some e)
      | None => fst r
      end,
      (snd r, {| hooks := hooks d2; mutation := mark_done m |}))).
Proof.
  intros d out.
  assert (Hx : fst (IntSIDDelete_Exec d ctx w) =
               match snd (fst out) with
               | Some e => (0%Z, Some e)
               | None => (affected (snd (snd out)), err (snd (snd out)))
               end).
  { rewrite (DeleteFacts.Exec_hooked d h1 rest ctx w eq_refl).
    change (mutation d) with m. fold out.
    now destruct out as [[v [e|]] [w' fr]]. }
  split; [exact Hx|]. split; [|split; [|split; [|split]]].
  - apply (DeleteFacts.run_captured rest (h1 ctx (IntSIDMut m)) (w, frame0 d)).
    left. reflexivity.
  - intros Hun. rewrite Hx.
    pose proof (DeleteFacts.run_unreached rest _ Hun (w, frame0 d)) as Hfr.
    change (run (fold_right wrap terminal rest) (h1 ctx (IntSIDMut m)) (w, frame0 d))
      with out in Hfr.
    rewrite Hfr. now destruct (snd (fst out)).
  - intros Hsc next. apply (DeleteFacts.run_short_circuit_any _ Hsc).
  - intros pre post v e Hpre d1.
    rewrite (Exec_chain_run (pre ++ answer v e :: post) d1 ctx w);
      [|now destruct pre|reflexivity].
    rewrite (chain_transparent_prefix pre _ terminal Hpre).
    cbn [fold_right]. unfold wrap at 1, answer. cbn [run].
    now destruct e.
  - intros pre post f g Hpre Hpost d2 r.
    rewrite (Exec_chain_run (pre ++ after f g :: post) d2 ctx w);
      [|now destruct pre|reflexivity].
    rewrite (chain_transparent_prefix pre _ terminal Hpre).
    change (mutation d2) with m.
    cbn [fold_right]. unfold wrap at 1, after. cbn [run].
    rewrite (chain_transparent post terminal Hpost).
    rewrite (terminal_eq m d2 ctx w (frame0 d2) eq_refl).
    fold r. cbn [run Exec_return isd hooks frame0 affected err].
    destruct r as [[n e] w']. cbn [fst snd].
    now destruct (g (VInt n) e).
Qed.

(** The statement a store builds from the spec of [sqlExec]: the
    predicates applied in order to the selector of the table. *)
Lemma statement_deleteSpec (d : IntSIDDelete) :
  store.statement (deleteSpec d)
  = fold_left (fun s p => p s) (predicates (mutation d)) (sql.Select intsid_Table).
Proof.
  unfold store.statement, deleteSpec.
  destruct (predicates (mutation d)); reflexivity.
Qed.

Lemma Where_statement (d : IntSIDDelete) (cs : list sql.P) (r : sql.Row) :
  sql.selects (store.statement
                 (deleteSpec (IntSIDDelete_Where d (map predicate.of_condition cs)))) r
  = sql.selects (store.statement (deleteSpec d)) r
    && forallb (fun c => sql.holds c r) cs.
Proof.
  rewrite !statement_deleteSpec. unfold IntSIDDelete_Where.
  cbn [mutation predicates]. rewrite fold_left_app.
  apply DeleteFacts.apply_conditions.
Qed.

(** X9: [Where] composes by appending and keeps the hooks, and conditions
    added with [Where] only narrow the delete: whatever the predicates
    already on the builder do, the statement selects the rows it selected
    before that satisfy every added condition. *)
Theorem Where_narrows (d : IntSIDDelete) (ps qs : list predicate.IntSID) (cs : list sql.P) :
  IntSIDDelete_Where (IntSIDDelete_Where d ps) qs = IntSIDDelete_Where d (ps ++ qs) /\
  hooks (IntSIDDelete_Where d ps) = hooks d /\
  store.statement (deleteSpec (IntSIDDelete_Where d [])) = store.statement (deleteSpec d) /\
  forall r,
    sql.selects (store.statement
                   (deleteSpec (IntSIDDelete_Where d (map predicate.of_condition cs)))) r
    = sql.selects (store.statement (deleteSpec d)) r
      && forallb (fun c => sql.holds c r) cs.
Proof.
  split; [|split; [reflexivity|split]].
  - unfold IntSIDDelete_Where. cbn [hooks mutation predicates done].
    now rewrite app_assoc.
  - rewrite !statement_deleteSpec. unfold IntSIDDelete_Where. cbn [mutation predicates].
    now rewrite app_nil_r.
  - intros r. apply Where_statement.
Qed.

End WithEnv.

End HookFacts.

(** ** More on the store, the columns and the example policy *)

Module StoreHookFacts.

Import privacy ent.

(** X10: on this store, a delete narrowed with [Where] never removes a row
    that fails one of the added conditions, whatever predicates the
    builder already had. *)
Theorem Where_keeps_other_rows (d : @IntSIDDelete store.env) (cs : list sql.P)
    (ctx : Ctx) (db : store.DB) (r : sql.Row) :
  hooks d = [] ->
  In r (store.rows db) ->
  forallb (fun c => sql.holds c r) cs = false ->
  In r (store.rows (fst (snd (@IntSIDDelete_Exec store.env
             (IntSIDDelete_Where d (map predicate.of_condition cs)) ctx db)))).
Proof.
  intros Hh Hin Hfail.
  rewrite (@DeleteFacts.Exec_no_hooks store.env
             (IntSIDDelete_Where d (map predicate.of_condition cs)) ctx db Hh).
  unfold IntSIDDelete_sqlExec. cbn [DeleteNodes store.env fst snd].
  unfold store.delete_nodes. cbn [snd fst store.rows].
  apply filter_In. split; [exact Hin|].
  rewrite (@HookFacts.Where_statement store.env d cs r), Hfail, andb_false_r.
  reflexivity.
Qed.

End StoreHookFacts.

Module ColumnFacts.

Import tweettag.

(** X11: [ValidColumn] accepts exactly the four column names of the table,
    none of them twice in [Columns]; the two edge columns are among them,
    and the names of the edges, of the table and a column name in another
    case are not columns. *)
Theorem ValidColumn_exact :
  (forall c, ValidColumn c = true <->
             c = "id"%string \/ c = "added_at"%string \/
             c = "tag_id"%string \/ c = "tweet_id"%string) /\
  NoDup Columns /\
  (forall c, is_edge_column c = true -> ValidColumn c = true) /\
  ValidColumn EdgeTag = false /\ ValidColumn EdgeTweet = false /\
  ValidColumn Table = false /\ ValidColumn "ID" = false.
Proof.
  split; [|split; [|split]].
  - intros c. unfold ValidColumn. rewrite TweetTagFacts.ValidColumn_in_spec.
    unfold Columns, FieldID, FieldAddedAt, FieldTagID, FieldTweetID. cbn [In].
    split; intros H; repeat (destruct H as [H|H]; auto); contradiction.
  - unfold Columns.
    repeat (constructor; [cbn [In]; intros H; repeat (destruct H as [H|H]; try discriminate H);
                          try contradiction|]).
    constructor.
  - intros c Hc. unfold is_edge_column in Hc.
    apply TweetTagFacts.ValidColumn_in_spec in Hc.
    apply TweetTagFacts.ValidColumn_in_spec.
    destruct Hc as [<-|[<-|[]]]; cbn; auto.
  - repeat split.
Qed.

End ColumnFacts.

Module AdminPolicyFacts.

Import privacy privacyadmin.

(** X12: under the mutation policy of the admin-only example
    (DenyIfNoViewer, AllowIfAdmin, AlwaysDenyRule), with no decision bound
    to the context, a mutation is allowed exactly when the context carries
    an admin viewer.  Without a viewer only the first rule is evaluated, so
    AllowIfAdmin never meets a nil viewer; a viewer that is no admin is
    denied by the last rule; the decision on exhaustion is never used. *)
Theorem admin_only_policy (Op : Type) (FromContext : Ctx -> option viewer.Viewer)
    (deny : string) (dflt : Terminal) (ctx : Ctx) (o : Op) :
  decision ctx = None ->
  let final := evaluate (UserMutationPolicy Op FromContext deny dflt) ctx o in
  (phase final = Finished Allowed <->
   exists view, FromContext ctx = Some view /\ viewer.Admin view = true) /\
  match FromContext ctx with
  | None =>
      phase final = Finished (Denied "viewer-context is missing") /\
      evaluated final = [0]
  | Some view =>
      if viewer.Admin view
      then phase final = Finished Allowed /\ evaluated final = [0; 1]
      else phase final = Finished (Denied deny) /\ evaluated final = [0; 1; 2]
  end /\
  op final = o.
Proof.
  intros Hd final. unfold final, evaluate, UserMutationPolicy, init.
  cbn [rules length iterate]. rewrite Hd.
  unfold step, DenyIfNoViewer, AllowIfAdmin, AlwaysDenyRule.
  cbn [phase nth_error rules op evaluated].
  destruct (FromContext ctx) as [view|] eqn:Hv;
    [destruct (viewer.Admin view) eqn:Ha|]; cbn;
    repeat (progress (rewrite ?Hv, ?Ha; cbn)).
  - repeat split; auto. intros _. now exists view.
  - repeat split; auto; try discriminate.
    intros (view' & Hv' & Ha'). congruence.
  - repeat split; auto; try discriminate.
    intros (view' & Hv' & _). discriminate.
Qed.

End AdminPolicyFacts.

Module TenantFacts.

Import privacy ent privacytenant.



End TenantFacts.

(** ** The further theorems at concrete hooks, stores and contexts *)

Module MoreWitnesses.

Import privacy ent samples hook.

Lemma passing : Forall (@transparent store.env) [pass].
Proof.
  exact (Forall_cons _ (@HookFacts.pass_transparent store.env) (Forall_nil _)).
Defined.

(** Two passing hooks on the store: one row deleted, as without hooks; on a
    store that reports 3 rows and an error: 0 with hooks, 3 without. *)
Lemma Exec_transparent_hooks_witness :
  fst (@IntSIDDelete_Exec store.env
         {| hooks := map Some [pass; pass]; mutation := where_id 5 |} background db0)
    = (1%Z, None) /\
  fst (@IntSIDDelete_Exec (answering.env (3%Z, Some (ConstraintError "foreign key")))
         {| hooks := map Some [pass; pass]; mutation := where_id 5 |} background db0)
    = (0%Z, Some (ConstraintError "foreign key")) /\
  fst (@IntSIDDelete_Exec (answering.env (3%Z, Some (ConstraintError "foreign key")))
         {| hooks := []; mutation := where_id 5 |} background db0)
    = (3%Z, Some (ConstraintError "foreign key")).
Proof.
  split; [|split].
  - rewrite (proj1 (@HookFacts.Exec_transparent_hooks store.env pass [pass] (where_id 5)
                      background db0
                      (Forall_cons _ (@HookFacts.pass_transparent store.env) passing))).
    reflexivity.
  - rewrite (proj1 (@HookFacts.Exec_transparent_hooks
                      (answering.env (3%Z, Some (ConstraintError "foreign key")))
                      pass [pass] (where_id 5) background db0
                      (Forall_cons _ (HookFacts.pass_transparent)
                         (Forall_cons _ (HookFacts.pass_transparent) (Forall_nil _))))).
    reflexivity.
  - rewrite (proj2 (@HookFacts.Exec_transparent_hooks
                      (answering.env (3%Z, Some (ConstraintError "foreign key")))
                      pass [pass] (where_id 5) background db0
                      (Forall_cons _ (HookFacts.pass_transparent)
                         (Forall_cons _ (HookFacts.pass_transparent) (Forall_nil _))))).
    reflexivity.
Defined.

(** A hook that passes on a mutation of another type. *)
Lemma Exec_unexpected_mutation_witness :
  fst (@IntSIDDelete_Exec store.env
         {| hooks := map Some [replace (OtherMut "*ent.PetMutation"); pass];
            mutation := where_id 5 |} background db0)
    = (0%Z, Some (Errorf "unexpected mutation type *ent.PetMutation")) /\
  fst (snd (@IntSIDDelete_Exec store.env
         {| hooks := map Some [replace (OtherMut "*ent.PetMutation"); pass];
            mutation := where_id 5 |} background db0)) = db0.
Proof.
  rewrite (@HookFacts.Exec_unexpected_mutation store.env "*ent.PetMutation" [pass]
             (where_id 5) background db0 passing).
  split; reflexivity.
Defined.

(** Two narrowing hooks: the statement carries the builder's condition,
    then the first hook's, then the second's, and selects no row. *)
Lemma Exec_narrowing_hooks_witness :
  let d := {| hooks := map Some (map narrow [sql.GT "id" 0; sql.GT "id" 5]);
              mutation := where_id 5 |} in
  fst (@IntSIDDelete_Exec store.env d background db0) = (0%Z, None) /\
  store.statements (fst (snd (@IntSIDDelete_Exec store.env d background db0)))
    = [{| sql.table := "int_sids";
          sql.where_ := Some (sql.And (sql.And (sql.EQ "id" 5) (sql.GT "id" 0))
                                      (sql.GT "id" 5)) |}].
Proof.
  intros d. unfold d.
  rewrite (proj2 (@HookFacts.Exec_narrowing_hooks store.env (sql.GT "id" 0) [sql.GT "id" 5]
                    (where_id 5) background db0)).
  split; reflexivity.
Defined.


(** A hook that calls on twice: two statements are executed, the row is
    gone, and the count is that of the second run, 0, so that
    [IntSIDDeleteOne.Exec] reports NotFound. *)
Lemma Exec_next_twice_witness :
  let d := {| hooks := map Some [twice; pass]; mutation := where_id 5 |} in
  fst (@IntSIDDelete_Exec store.env d background db0) = (0%Z, None) /\
  store.rows (fst (snd (@IntSIDDelete_Exec store.env d background db0)))
    = [[("id"%string, 6%Z)]] /\
  length (store.statements (fst (snd (@IntSIDDelete_Exec store.env d background db0)))) = 2.
Proof.
  intros d. unfold d.
  rewrite (@HookFacts.Exec_next_twice store.env [pass] (where_id 5) background db0 passing).
  repeat split.
Defined.

(** A hook that fails after the delete: 0 and its error, the row gone. *)
Lemma Exec_error_after_delete_witness :
  let d := {| hooks := map Some [fail_after (Errorf "audit log unavailable"); pass];
              mutation := where_id 5 |} in
  fst (@IntSIDDelete_Exec store.env d background db0)
    = (0%Z, Some (Errorf "audit log unavailable")) /\
  store.rows (fst (snd (@IntSIDDelete_Exec store.env d background db0)))
    = [[("id"%string, 6%Z)]].
Proof.
  intros d. unfold d.
  rewrite (@HookFacts.Exec_error_after_delete store.env (Errorf "audit log unavailable")
             [pass] (where_id 5) background db0 passing).
  split; reflexivity.
Defined.

(** A nil hook between two hooks. *)
Lemma nil_hook_everywhere_witness :
  let d := hooked [Some pass; None; Some pass] 5 in
  @IntSIDDelete_ExecX store.env d background db0 = (Panicked uninitialized_hook, (db0, d)) /\
  @IntSIDDeleteOne_Exec store.env {| isd_ := d |} background db0
    = (Some uninitialized_hook, (db0, d)) /\
  @IntSIDDeleteOne_ExecX store.env {| isd_ := d |} background db0
    = (Panicked uninitialized_hook, (db0, d)).
Proof.
  intros d.
  exact (@HookFacts.nil_hook_everywhere store.env d background db0 1 eq_refl).
Defined.

(** The row with id 6 fails the added condition id = 5 and stays. *)
Lemma Where_keeps_other_rows_witness :
  In [("id"%string, 6%Z)]
     (store.rows (fst (snd (@IntSIDDelete_Exec store.env
        (IntSIDDelete_Where delete_all (map predicate.of_condition [sql.EQ "id" 5]))
        background db0)))).
Proof.
  apply (StoreHookFacts.Where_keeps_other_rows delete_all [sql.EQ "id" 5] background db0
           [("id"%string, 6%Z)] eq_refl).
  - right. left. reflexivity.
  - reflexivity.
Defined.

(** No viewer, an admin and a viewer of another role. *)
Lemma admin_only_policy_witness :
  let P := privacyadmin.UserMutationPolicy Mutation privacyadmin.role_viewer
             "ent/privacy: deny rule" Allowed in
  phase (evaluate P background (IntSIDMut (where_id 5)))
    = Finished (Denied "viewer-context is missing") /\
  phase (evaluate P (privacyadmin.with_role "admin") (IntSIDMut (where_id 5)))
    = Finished Allowed /\
  phase (evaluate P (privacyadmin.with_role "view") (IntSIDMut (where_id 5)))
    = Finished (Denied "ent/privacy: deny rule").
Proof.
  intros P. split; [|split].
  - exact (proj1 (proj1 (proj2 (AdminPolicyFacts.admin_only_policy Mutation
             privacyadmin.role_viewer "ent/privacy: deny rule" Allowed background
             (IntSIDMut (where_id 5)) eq_refl)))).
  - exact (proj1 (proj1 (proj2 (AdminPolicyFacts.admin_only_policy Mutation
             privacyadmin.role_viewer "ent/privacy: deny rule" Allowed
             (privacyadmin.with_role "admin") (IntSIDMut (where_id 5)) eq_refl)))).
  - exact (proj1 (proj1 (proj2 (AdminPolicyFacts.admin_only_policy Mutation
             privacyadmin.role_viewer "ent/privacy: deny rule" Allowed
             (privacyadmin.with_role "view") (IntSIDMut (where_id 5)) eq_refl)))).
Defined.


(** The value of the chain on the store with the rows 5 and 6.  A hook
    that returns 42 without calling on, first or behind a hook that calls
    on: 0 and nil, whatever the next mutator is, and no statement is
    executed.  A hook that returns 42 and an error without calling on,
    between passing hooks: 0 and the error, the store and the builder as
    before.  A hook that calls on and returns 42 for the count it got: the
    count is that of the delete, 1, and the row is gone.  On a store that
    reports 3 rows and an error, a hook that returns 42 and no error: 3 and
    the error of the store. *)
Lemma Exec_discards_chain_value_witness :
  fst (@IntSIDDelete_Exec store.env (hooked [Some (short (VInt 42))] 5) background db0)
    = (0%Z, None) /\
  fst (@IntSIDDelete_Exec store.env
         (hooked [Some (tag "h1" (sql.GT "id" 0)); Some (short (VInt 42))] 5) background db0)
    = (0%Z, None) /\
  fst (snd (@IntSIDDelete_Exec store.env
         (hooked [Some (tag "h1" (sql.GT "id" 0)); Some (short (VInt 42))] 5) background db0))
    = db0 /\
  (forall next : @Mutator store.env,
     run next (short (VInt 42) background (IntSIDMut (where_id 5)))
         (db0, frame0 (hooked [Some (short (VInt 42)); Some pass] 5))
     = ((VInt 42, None), (db0, frame0 (hooked [Some (short (VInt 42)); Some pass] 5)))) /\
  (let d := {| hooks := map Some [pass; answer (VInt 42) (Some (Errorf "rejected")); twice];
               mutation := where_id 5 |} in
   @IntSIDDelete_Exec store.env d background db0
     = ((0%Z, Some (Errorf "rejected")), (db0, d))) /\
  (let d := {| hooks := map Some [pass; after (fun _ _ => VInt 42) (fun _ e => e); pass];
               mutation := where_id 5 |} in
   fst (@IntSIDDelete_Exec store.env d background db0) = (1%Z, None) /\
   store.rows (fst (snd (@IntSIDDelete_Exec store.env d background db0)))
     = [[("id"%string, 6%Z)]] /\
   done (mutation (snd (snd (@IntSIDDelete_Exec store.env d background db0)))) = true) /\
  fst (@IntSIDDelete_Exec (answering.env (3%Z, Some (ConstraintError "foreign key")))
         {| hooks := map Some [after (fun _ _ => VInt 42) (fun _ _ => None)];
            mutation := where_id 5 |} background db0)
    = (3%Z, Some (ConstraintError "foreign key")).
Proof.
  split; [|split; [|split; [|split; [|split; [|split]]]]].
  - exact (proj1 (proj2 (proj2 (@HookFacts.Exec_discards_chain_value store.env
                    (short (VInt 42)) [] (where_id 5) background db0)))
                 (un_ret [] (VInt 42) None)).
  - exact (proj1 (proj2 (proj2 (@HookFacts.Exec_discards_chain_value store.env
                    (tag "h1" (sql.GT "id" 0)) [short (VInt 42)] (where_id 5)
                    background db0)))
                 (un_next (short (VInt 42)) [] background _ _
                    (un_ret [] (VInt 42) None)
                    (fun v e => un_ret _ _ _))).
  - reflexivity.
  - exact (proj1 (proj2 (proj2 (proj2 (@HookFacts.Exec_discards_chain_value store.env
                    (short (VInt 42)) [pass] (where_id 5) background db0))))
                 (sc_ret (VInt 42) None)).
  - intros d. unfold d.
    exact (proj1 (proj2 (proj2 (proj2 (proj2 (@HookFacts.Exec_discards_chain_value
                    store.env pass [] (where_id 5) background db0)))))
                 [pass] [twice] (VInt 42) (Some (Errorf "rejected")) passing).
  - intros d. unfold d.
    pose proof (proj2 (proj2 (proj2 (proj2 (proj2 (@HookFacts.Exec_discards_chain_value
                    store.env pass [] (where_id 5) background db0)))))
                 [pass] [pass] (fun _ _ => VInt 42) (fun _ e => e) passing passing) as H.
    cbv zeta in H. cbn [app] in H. rewrite H. repeat split.
  - pose proof (proj2 (proj2 (proj2 (proj2 (proj2 (@HookFacts.Exec_discards_chain_value
                    (answering.env (3%Z, Some (ConstraintError "foreign key")))
                    pass [] (where_id 5) background db0)))))
                 [] [] (fun _ _ => VInt 42) (fun _ _ => None)
                 (Forall_nil _) (Forall_nil _)) as H.
    cbv zeta in H. cbn [app] in H. rewrite H. reflexivity.
Defined.

End MoreWitnesses.
